(** * powerdns/utils.py: validators, reverse pointers, conflicts, lookups

    A shallow embedding of [powerdns/utils.py] and the properties of its
    validation helpers.

    Conventions of the embedding:
    - a Python [str] is a [string]; a character is an [ascii], read as the
      code point of that number (text with code points above 255 is not
      represented);
    - a function that may raise returns a [result]: [Ok v] for a normal
      return, [Raise e] for the exception [e];
    - [Record.objects] and [Domain.objects] are tables, given as lists of
      rows in the order the database yields them; a lookup by a field
      compares strings exactly;
    - what the module imports from Python and Django ([re], [ipaddress],
      [str.format], [RegexValidator]) is embedded as far as the module
      uses it, from the documented behaviour of these libraries. *)

From Stdlib Require Import String Ascii List ZArith NArith Lia Bool.
From Stdlib Require Import DecimalString.
From stdpp Require Import base option list strings gmap.

(** Strings are appended with [+:+]; [++] is kept for lists. *)

(* ===================================================================== *)
(** * Exceptions and fallible computations *)
(* ===================================================================== *)

(** The exceptions the module raises or lets through. *)
Inductive exn : Type :=
| ValidationError (msg : string)   (* django.core.exceptions *)
| ValueError (msg : string)        (* ipaddress.ip_address, str.format *)
| KeyError (key : string)          (* str.format, dict lookup *)
| IndexError                       (* str.format, positional field *)
| AddressValueError                (* ipaddress, a subclass of ValueError;
                                      its message is not modelled *)
| Unmodelled (what : string).      (* no exception of Python: the input
                                      is outside the embedding *)

Inductive result (A : Type) : Type :=
| Ok (a : A)
| Raise (e : exn).
Arguments Ok {A} a.
Arguments Raise {A} e.

Definition bind {A B} (m : result A) (k : A -> result B) : result B :=
  match m with
  | Ok a => k a
  | Raise e => Raise e
  end.

#[global] Instance result_bind : MBind result := fun A B k m => bind m k.
#[global] Instance result_ret : MRet result := @Ok.

Definition raises {A} (m : result A) : Prop := exists e, m = Raise e.

(* ===================================================================== *)
(** * Strings *)
(* ===================================================================== *)

Definition nl : ascii := "010"%char.

Fixpoint str_all (p : ascii -> bool) (s : string) : bool :=
  match s with
  | EmptyString => true
  | String c s' => p c && str_all p s'
  end.

Fixpoint str_mem (c : ascii) (s : string) : bool :=
  match s with
  | EmptyString => false
  | String d s' => Ascii.eqb c d || str_mem c s'
  end.

(** [s[::-1]] *)
Definition str_rev (s : string) : string :=
  string_of_list_ascii (rev (list_ascii_of_string s)).

(** [sep.join(l)] is [String.concat sep l]. *)
Abbreviation join := String.concat.

(* ===================================================================== *)
(** * Regular expressions, as [re] matches them *)
(* ===================================================================== *)

(** The patterns of the module use literals, character sets made of ranges
    and single characters, grouping, [?], [*], [+], and the anchors [^] and
    [$] around the whole pattern. *)
Module Re.

Inductive item : Type :=
| Range (lo hi : ascii)     (* a-z *)
| Single (c : ascii).       (* a *)

Inductive regex : Type :=
| Void                       (* matches nothing; only from derivatives *)
| Eps                        (* the empty pattern *)
| Lit (c : ascii)            (* an escaped or plain literal *)
| Set_ (items : list item)   (* [...] *)
| Cat (r1 r2 : regex)
| Alt (r1 r2 : regex)
| Star (r : regex).          (* r* *)

(** [r?] and [r+] *)
Definition Opt (r : regex) : regex := Alt r Eps.
Definition Plus (r : regex) : regex := Cat r (Star r).

Definition in_item (c : ascii) (i : item) : bool :=
  match i with
  | Range lo hi =>
      (N_of_ascii lo <=? N_of_ascii c)%N && (N_of_ascii c <=? N_of_ascii hi)%N
  | Single d => Ascii.eqb c d
  end.

Definition in_set (items : list item) (c : ascii) : bool :=
  existsb (in_item c) items.

Fixpoint nullable (r : regex) : bool :=
  match r with
  | Void => false
  | Eps => true
  | Lit _ => false
  | Set_ _ => false
  | Cat r1 r2 => nullable r1 && nullable r2
  | Alt r1 r2 => nullable r1 || nullable r2
  | Star _ => true
  end.

(** What is left of [r] after it has read [c]. *)
Fixpoint deriv (c : ascii) (r : regex) : regex :=
  match r with
  | Void => Void
  | Eps => Void
  | Lit d => if Ascii.eqb c d then Eps else Void
  | Set_ items => if in_set items c then Eps else Void
  | Cat r1 r2 =>
      if nullable r1
      then Alt (Cat (deriv c r1) r2) (deriv c r2)
      else Cat (deriv c r1) r2
  | Alt r1 r2 => Alt (deriv c r1) (deriv c r2)
  | Star r1 => Cat (deriv c r1) (Star r1)
  end.

(** [r] matches the whole of [s]. *)
Fixpoint fullmatch (r : regex) (s : string) : bool :=
  match s with
  | EmptyString => nullable r
  | String c s' => fullmatch (deriv c r) s'
  end.

(** [s] without its final newline, when it ends in one. *)
Fixpoint chomp (s : string) : option string :=
  match s with
  | EmptyString => None
  | String c s' =>
      match s' with
      | EmptyString => if Ascii.eqb c nl then Some "" else None
      | _ => option_map (String c) (chomp s')
      end
  end.

(** [re.search('^' r '$', s)] without flags: [^] holds at the start of
    the string only; [$] holds at the end of the string and also just
    before a newline that ends the string. *)
Definition search_anchored (r : regex) (s : string) : bool :=
  fullmatch r s
  || match chomp s with
     | Some s' => fullmatch r s'
     | None => false
     end.

(** The words of a pattern. *)
Inductive lang : regex -> string -> Prop :=
| L_Eps : lang Eps ""
| L_Lit c : lang (Lit c) (String c "")
| L_Set items c : in_set items c = true -> lang (Set_ items) (String c "")
| L_Cat r1 r2 s1 s2 : lang r1 s1 -> lang r2 s2 -> lang (Cat r1 r2) (s1 +:+ s2)
| L_AltL r1 r2 s : lang r1 s -> lang (Alt r1 r2) s
| L_AltR r1 r2 s : lang r2 s -> lang (Alt r1 r2) s
| L_Star0 r : lang (Star r) ""
| L_StarS r s1 s2 : lang r s1 -> lang (Star r) s2 -> lang (Star r) (s1 +:+ s2).

End Re.

(* ===================================================================== *)
(** * Built-ins of [str] and [int] the module calls *)
(* ===================================================================== *)

(** [str.isspace] of one character, for the code points below 256: the
    ASCII controls 9-13 and 28-31, the space, NEL (133) and the
    no-break space (160). *)
Definition is_space (c : ascii) : bool :=
  let n := N_of_ascii c in
  ((9 <=? n) && (n <=? 13) || (28 <=? n) && (n <=? 32)
   || (n =? 133) || (n =? 160))%N.

Definition starts_with_space (s : string) : bool :=
  match s with
  | EmptyString => true
  | String c _ => is_space c
  end.

(** [s.split()]: the maximal runs of characters that are not whitespace. *)
Fixpoint split_ws (s : string) : list string :=
  match s with
  | EmptyString => []
  | String c s' =>
      if is_space c then split_ws s'
      else if starts_with_space s' then String c "" :: split_ws s'
      else match split_ws s' with
           | w :: ws => String c w :: ws
           | [] => [String c ""]
           end
  end.

(** [s.split(sep)] for a separator of one character. *)
Fixpoint split_on (sep : ascii) (s : string) : list string :=
  match s with
  | EmptyString => [""]
  | String c s' =>
      if Ascii.eqb c sep then "" :: split_on sep s'
      else match split_on sep s' with
           | w :: ws => String c w :: ws
           | [] => [String c ""]
           end
  end.

(** [s.replace(c, '')] *)
Fixpoint remove_char (c : ascii) (s : string) : string :=
  match s with
  | EmptyString => ""
  | String d s' =>
      if Ascii.eqb d c then remove_char c s' else String d (remove_char c s')
  end.

(** [list(s)]: the characters of [s], each as a string of length one. *)
Fixpoint chars (s : string) : list string :=
  match s with
  | EmptyString => []
  | String c s' => String c "" :: chars s'
  end.

(** [str(n)] for a natural number. *)
Definition str_of_N (n : N) : string :=
  NilZero.string_of_uint (N.to_uint n).

Definition is_digit (c : ascii) : bool :=
  let n := N_of_ascii c in ((48 <=? n) && (n <=? 57))%N.

Definition digit_val (c : ascii) : N := N_of_ascii c - 48.

(** [int(s, 10)] on a string of ASCII digits. *)
Definition int10 (s : string) : N :=
  fold_left (fun acc c => 10 * acc + digit_val c)%N (list_ascii_of_string s) 0%N.

Definition hex_val (c : ascii) : option N :=
  let n := N_of_ascii c in
  if ((48 <=? n) && (n <=? 57))%N then Some (n - 48)%N
  else if ((65 <=? n) && (n <=? 70))%N then Some (n - 55)%N
  else if ((97 <=? n) && (n <=? 102))%N then Some (n - 87)%N
  else None.

Definition is_hex_digit (c : ascii) : bool :=
  match hex_val c with Some _ => true | None => false end.

(** [int(s, 16)] on a string of hexadecimal digits. *)
Definition int16 (s : string) : N :=
  fold_left (fun acc c => 16 * acc + default 0 (hex_val c))%N
            (list_ascii_of_string s) 0%N.

Definition hex_digit (d : N) : ascii :=
  if (d <? 10)%N then ascii_of_N (48 + d) else ascii_of_N (87 + d).

(** The hexadecimal digits of [n], lowest first, none for zero. *)
Fixpoint hex_le (fuel : nat) (n : N) : list ascii :=
  match fuel with
  | O => []
  | S fuel' =>
      if (n =? 0)%N then []
      else hex_digit (n mod 16) :: hex_le fuel' (n / 16)
  end.

(** ['%x' % n] *)
Definition hex (n : N) : string :=
  if (n =? 0)%N then "0"
  else string_of_list_ascii (rev (hex_le (N.to_nat (N.size n)) n)).

(** [s.rjust(width, '0')], the padding of ['%0<width>x']. *)
Definition zero_pad (width : nat) (s : string) : string :=
  string_of_list_ascii (repeat "0"%char (width - String.length s)) +:+ s.

(** ['%032x' % n] *)
Definition hex032 (n : N) : string := zero_pad 32 (hex n).

(** [[s[x:x+4] for x in range(0, len(s), 4)]] *)
Fixpoint groups4 (fuel : nat) (s : string) : list string :=
  match fuel with
  | O => []
  | S fuel' =>
      match s with
      | EmptyString => []
      | _ => substring 0 4 s :: groups4 fuel' (substring 4 (String.length s - 4) s)
      end
  end.

(* ===================================================================== *)
(** * Validators (lines 18-88) *)
(* ===================================================================== *)

Definition DOMAIN_NAME_RECORDS : list string :=
  ["CNAME"; "MX"; "NAPTR"; "NS"; "PTR"].

(** [django.core.validators.RegexValidator(pattern)] applied to a value:
    it raises [ValidationError] with the default message when
    [re.search(pattern, value)] finds nothing. Every pattern of the module
    is of the form [^...$]. *)
Definition RegexValidator (r : Re.regex) (value : string) : result unit :=
  if Re.search_anchored r value then Ok tt
  else Raise (ValidationError "Enter a valid value.").

Definition alnum : list Re.item :=
  [Re.Range "A" "Z"; Re.Range "a" "z"; Re.Range "0" "9"].

(** [[_A-Za-z0-9-]] *)
Definition label_set : list Re.item :=
  Re.Single "_" :: alnum ++ [Re.Single "-"].

(** [^(\*\.)?([_A-Za-z0-9-]+\.)*([A-Za-z0-9])+$] *)
Definition domain_name_re : Re.regex :=
  Re.Cat (Re.Opt (Re.Cat (Re.Lit "*") (Re.Lit ".")))
    (Re.Cat (Re.Star (Re.Cat (Re.Plus (Re.Set_ label_set)) (Re.Lit ".")))
            (Re.Plus (Re.Set_ alnum))).

Definition validate_domain_name : string -> result unit :=
  RegexValidator domain_name_re.

(** [^[A-Za-z0-9.-]*$] *)
Definition dn_optional_dot_re : Re.regex :=
  Re.Star (Re.Set_ (alnum ++ [Re.Single "."; Re.Single "-"])).

Definition validate_dn_optional_dot : string -> result unit :=
  RegexValidator dn_optional_dot_re.

(** [^[0-9]+$] *)
Definition time_re : Re.regex := Re.Plus (Re.Set_ [Re.Range "0" "9"]).

Definition validate_time : string -> result unit := RegexValidator time_re.

Definition validate_name_equal_to_content (name content : string)
  : result unit :=
  if String.eqb name content
  then Raise (ValidationError
                "Cannot create record with the same name and content")
  else Ok tt.

(** A [for] loop whose body may raise. *)
Fixpoint for_each {A} (body : A -> result unit) (l : list A) : result unit :=
  match l with
  | [] => Ok tt
  | x :: l' => body x ;; for_each body l'
  end.

(** ['Incorrect {}. Should be a valid domain name.'.format(field)]; the
    translation [_] is the identity when no catalogue is loaded. *)
Definition soa_message (field : string) : string :=
  "Incorrect " +:+ field +:+ ". Should be a valid domain name.".

(** The body of both loops of [validate_soa]: the validator's
    [ValidationError] is replaced by one that names the field. *)
Definition soa_check (validator : string -> result unit)
  (item : string * string) : result unit :=
  let '(subvalue, field) := item in
  match validator subvalue with
  | Ok _ => Ok tt
  | Raise (ValidationError _) => Raise (ValidationError (soa_message field))
  | Raise e => Raise e
  end.

Definition validate_soa (value : string) : result unit :=
  match split_ws value with
  | [name; email; sn; refresh; retry; expiry; nx] =>
      for_each (soa_check validate_dn_optional_dot)
        [(name, "Domain name"); (email, "e-mail")] ;;
      for_each (soa_check validate_time)
        [(sn, "Serial"); (refresh, "Refresh rate"); (retry, "Retry rate");
         (expiry, "Expiry time"); (nx, "Negative resp. time")]
  | _ => Raise (ValidationError "Enter a valid SOA record")
  end.

(* ===================================================================== *)
(** * The [ipaddress] module, as far as [_reverse_ip] uses it *)
(* ===================================================================== *)

(** An address object holds its integer [_ip], and an IPv6 address the
    scope identifier that followed a [%] in the string, if any. The
    parsers follow CPython's [ipaddress.py] as of 3.11: octets without
    leading zeros, and an optional scope identifier after an IPv6
    address. In the parsers [None] stands for [AddressValueError]. *)
Inductive ip_obj : Type :=
| IPv4Address (_ip : N)
| IPv6Address (_ip : N) (_scope_id : option string).

Definition _parse_octet (octet_str : string) : option N :=
  if String.eqb octet_str "" then None
  else if negb (str_all is_digit octet_str) then None
  else if (3 <? String.length octet_str)%nat then None
  else if negb (String.eqb octet_str "0")
          && match octet_str with String "0" _ => true | _ => false end
       then None
  else let octet_int := int10 octet_str in
       if (255 <? octet_int)%N then None else Some octet_int.

(** [int.from_bytes(octets, 'big')] *)
Definition from_bytes_big (octets : list N) : N :=
  fold_left (fun acc b => 256 * acc + b)%N octets 0%N.

(** [IPv4Address._ip_int_from_string] *)
Definition v4_int_from_string (ip_str : string) : option N :=
  if String.eqb ip_str "" then None
  else match split_on "." ip_str with
       | [a; b; c; d] =>
           oa ← _parse_octet a; ob ← _parse_octet b;
           oc ← _parse_octet c; od ← _parse_octet d;
           Some (from_bytes_big [oa; ob; oc; od])
       | _ => None
       end.

(** [IPv4Address(address)] for a string *)
Definition parse_ipv4 (address : string) : option N :=
  if str_mem "/" address then None else v4_int_from_string address.

Definition _parse_hextet (hextet_str : string) : option N :=
  if negb (str_all is_hex_digit hextet_str) then None
  else if (4 <? String.length hextet_str)%nat then None
  else if String.eqb hextet_str "" then None   (* int('', 16) raises *)
  else Some (int16 hextet_str).

(** The loop that looks for the one empty part strictly inside [parts]:
    [Some None] when there is none, [None] when there are two. *)
Definition find_skip (parts : list string) : option (option nat) :=
  fold_left
    (fun acc i =>
       skip_index ← acc;
       if String.eqb (nth i parts "") "" then
         match skip_index with
         | Some _ => None
         | None => Some (Some i)
         end
       else Some skip_index)
    (seq 1 (length parts - 2)) (Some None).

(** [ip_int <<= 16; ip_int |= _parse_hextet(part)] over [parts] *)
Definition shift_hextets (ip_int : N) (parts : list string) : option N :=
  fold_left
    (fun acc part =>
       ip_int ← acc; h ← _parse_hextet part;
       Some (N.lor (N.shiftl ip_int 16) h))
    parts (Some ip_int).

(** [IPv6Address._ip_int_from_string] *)
Definition v6_int_from_string (ip_str : string) : option N :=
  if String.eqb ip_str "" then None else
  let parts := split_on ":" ip_str in
  if (length parts <? 3)%nat then None else
  parts ←
    (if str_mem "." (List.last parts "") then
       ipv4_int ← parse_ipv4 (List.last parts "");
       Some (removelast parts
             ++ [hex (N.land (N.shiftr ipv4_int 16) 65535);
                 hex (N.land ipv4_int 65535)])
     else Some parts);
  if (9 <? length parts)%nat then None else
  skip_index ← find_skip parts;
  '(parts_hi, parts_lo, parts_skipped) ←
    match skip_index with
    | Some k =>
        let first_empty := String.eqb (nth 0 parts "") "" in
        let last_empty := String.eqb (List.last parts "") "" in
        let parts_hi := if first_empty then (k - 1)%nat else k in
        let parts_lo :=
          if last_empty then (length parts - k - 1 - 1)%nat
          else (length parts - k - 1)%nat in
        if first_empty && negb (parts_hi =? 0)%nat then None
        else if last_empty && negb (parts_lo =? 0)%nat then None
        else if (8 <? parts_hi + parts_lo + 1)%nat then None
        else Some (parts_hi, parts_lo, (8 - (parts_hi + parts_lo))%nat)
    | None =>
        if negb (length parts =? 8)%nat then None
        else if String.eqb (nth 0 parts "") "" then None
        else if String.eqb (List.last parts "") "" then None
        else Some (length parts, 0%nat, 0%nat)
    end;
  ip_int ← shift_hextets 0 (firstn parts_hi parts);
  shift_hextets (N.shiftl ip_int (16 * N.of_nat parts_skipped))
                (skipn (length parts - parts_lo) parts).

(** [s.partition(sep)] for a separator of one character: what is before
    the first [sep] and, when there is one, what is after it. *)
Fixpoint str_partition (sep : ascii) (s : string) : string * option string :=
  match s with
  | EmptyString => ("", None)
  | String c s' =>
      if Ascii.eqb c sep then ("", Some s')
      else let '(before, after) := str_partition sep s' in (String c before, after)
  end.

(** [IPv6Address._split_scope_id] *)
Definition _split_scope_id (ip_str : string) : option (string * option string) :=
  match str_partition "%" ip_str with
  | (addr, None) => Some (addr, None)
  | (addr, Some scope_id) =>
      if String.eqb scope_id "" || str_mem "%" scope_id then None
      else Some (addr, Some scope_id)
  end.

(** [IPv6Address(address)] for a string: the integer and the scope
    identifier of the object. *)
Definition parse_ipv6 (address : string) : option (N * option string) :=
  if str_mem "/" address then None else
  '(addr_str, scope_id) ← _split_scope_id address;
  ip_int ← v6_int_from_string addr_str;
  Some (ip_int, scope_id).

(** [repr] of a string. The quote is the double one when the string
    holds single quotes and no double quote, and the single one otherwise;
    the quote and the backslash are escaped with a backslash; tab, newline
    and carriage return are written [\t], [\n], [\r]; the other
    characters that are not printable (the controls 0-31 and 127-159, the
    no-break space 160 and the soft hyphen 173) are written [\xhh]. *)
Definition backslash : ascii := "092"%char.
Definition dquote : ascii := "034"%char.

Definition is_printable (c : ascii) : bool :=
  let n := N_of_ascii c in
  (32 <=? n)%N && negb ((127 <=? n) && (n <=? 160))%N && negb (n =? 173)%N.

Definition repr_char (quote c : ascii) : string :=
  let n := N_of_ascii c in
  if Ascii.eqb c quote || Ascii.eqb c backslash
  then String backslash (String c "")
  else if (n =? 9)%N then String backslash "t"
  else if (n =? 10)%N then String backslash "n"
  else if (n =? 13)%N then String backslash "r"
  else if is_printable c then String c ""
  else String backslash
         (String "x" (String (hex_digit (n / 16)) (String (hex_digit (n mod 16)) ""))).

Definition repr (s : string) : string :=
  let quote : ascii :=
    if str_mem "'" s && negb (str_mem dquote s) then dquote else "'"%char in
  String quote
    (join "" (map (repr_char quote) (list_ascii_of_string s)))
  +:+ String quote "".

(** [ipaddress.ip_address(address)] for a string *)
Definition ip_address (address : string) : result ip_obj :=
  match parse_ipv4 address with
  | Some n => Ok (IPv4Address n)
  | None =>
      match parse_ipv6 address with
      | Some (n, scope_id) => Ok (IPv6Address n scope_id)
      | None =>
          Raise (ValueError
            (repr address +:+ " does not appear to be an IPv4 or IPv6 address"))
      end
  end.

(** [ip_int.to_bytes(4, 'big')], for [ip_int] below [2^32] *)
Definition to_bytes4 (ip_int : N) : list N :=
  [(ip_int / 16777216) mod 256; (ip_int / 65536) mod 256;
   (ip_int / 256) mod 256; ip_int mod 256]%N.

(** [str(ip_obj)] of an IPv4 address: the dotted decimal notation *)
Definition str_ipv4 (ip_int : N) : string :=
  join "." (map str_of_N (to_bytes4 ip_int)).

(** [ip_obj.exploded] of an IPv6 address. CPython parses [str(self)]
    with [_ip_int_from_string] first. Without a scope identifier
    [str(self)] is the compressed notation of [_ip], the parser returns
    [_ip] again, and the result is the eight groups of four hexadecimal
    digits of ['%032x' % ip_int]. With a scope identifier [str(self)]
    ends in [%] and the identifier, which the parser refuses in every
    part it reads: the property raises [AddressValueError]. *)
Definition exploded (ip_int : N) (scope_id : option string) : result string :=
  match scope_id with
  | None => Ok (join ":" (groups4 8 (hex032 ip_int)))
  | Some _ => Raise AddressValueError
  end.

(* ===================================================================== *)
(** * Reverse pointers (lines 120-168) *)
(* ===================================================================== *)

(** [last_byte, *first_bytes_reversed = seq] *)
Definition unpack_head_rest (l : list string)
  : result (string * list string) :=
  match l with
  | [] => Raise (ValueError "not enough values to unpack (expected at least 1, got 0)")
  | x :: xs => Ok (x, xs)
  end.

Definition _reverse_ip (ip : string) : result (string * string) :=
  ip_obj ← ip_address ip;
  '(unpacked, domain_suffix) ←
    match ip_obj with
    | IPv6Address n scope_id =>
        e ← exploded n scope_id;
        u ← unpack_head_rest (chars (remove_char ":" (str_rev e)));
        Ok (u, "ip6.arpa")
    | IPv4Address n =>
        u ← unpack_head_rest (rev (split_on "." (str_ipv4 n)));
        Ok (u, "in-addr.arpa")
    end;
  let '(last_byte, first_bytes_reversed) := unpacked in
  Ok (last_byte, join "." (first_bytes_reversed ++ [domain_suffix])).

Definition to_reverse (ip : string) : result (string * string) :=
  _reverse_ip ip.

Definition reverse_pointer (ip : string) : result string :=
  p ← _reverse_ip ip;
  Ok (join "." [p.1; p.2]).

(* ===================================================================== *)
(** * Recursive formatting (lines 185-223) *)
(* ===================================================================== *)

(** The values a template is made of: strings, dictionaries with string
    keys (in insertion order), lists, and the values that are none of
    these: tuples, whatever they hold, and numbers, booleans and [None]. *)
Inductive atom : Type :=
| AInt (n : Z)
| ABool (b : bool)
| ANone.

#[warnings="-register-all"]
Inductive value : Type :=
| VStr (s : string)
| VDict (items : list (string * value))
| VList (elems : list value)
| VTuple (elems : list value)
| VAtom (a : atom).

(** [PY_SSIZE_T_MAX] of a 64-bit build *)
Definition PY_SSIZE_T_MAX : N := 9223372036854775807.

(** [get_integer] of CPython's formatter: the number a field name
    denotes, [None] (the C code returns -1) for the empty name and at the
    first character that is no decimal digit. The digits are read from
    the left, and a number above [PY_SSIZE_T_MAX] is refused as soon as
    its digits have been read, before a later character is looked at. *)
Fixpoint get_integer_from (accumulator : N) (s : string) : result (option N) :=
  match s with
  | EmptyString => Ok (Some accumulator)
  | String c s' =>
      if negb (is_digit c) then Ok None
      else if ((PY_SSIZE_T_MAX - digit_val c) / 10 <? accumulator)%N
      then Raise (ValueError "Too many decimal digits in format string")
      else get_integer_from (accumulator * 10 + digit_val c) s'
  end.

Definition get_integer (s : string) : result (option N) :=
  if String.eqb s "" then Ok None else get_integer_from 0 s.

(** The field name [name] of a replacement field [{name}], looked up in
    the arguments: a name that is a number is a position, and so is the
    empty name (automatic numbering); there are no positional arguments,
    so a position is out of range. Any other name is a keyword. *)
Definition get_field_value (arguments : gmap string string) (name : string)
  : result string :=
  first_idx ← get_integer name;
  match first_idx with
  | Some _ => Raise IndexError
  | None =>
      if String.eqb name "" then Raise IndexError
      else match arguments !! name with
           | Some v => Ok v
           | None => Raise (KeyError name)
           end
  end.

(** [template.format] called with the keyword arguments [arguments],
    read from left to right. [field] is
    [None] in literal text and [Some name] inside a replacement field
    whose name so far is [name]. An argument stands for its [str()].

    Replacement fields with an attribute or an index ([.], [[]), a
    conversion ([!]) or a format specification ([:]) are outside the
    embedding (an attribute of a string can print a memory address):
    they give [Raise (Unmodelled ...)], which is no exception of Python
    and says nothing about what the code does with such a field. *)
Fixpoint format_go (arguments : gmap string string) (field : option string)
  (s : string) : result string :=
  match field, s with
  | None, EmptyString => Ok ""
  | None, String c s' =>
      if Ascii.eqb c "{" then
        match s' with
        | EmptyString =>
            Raise (ValueError "Single '{' encountered in format string")
        | String d s'' =>
            if Ascii.eqb d "{" then
              rest ← format_go arguments None s''; Ok (String "{" rest)
            else format_go arguments (Some "") s'
        end
      else if Ascii.eqb c "}" then
        match s' with
        | String "}" s'' =>
            rest ← format_go arguments None s''; Ok (String "}" rest)
        | _ => Raise (ValueError "Single '}' encountered in format string")
        end
      else rest ← format_go arguments None s'; Ok (String c rest)
  | Some name, EmptyString =>
      Raise (ValueError "expected '}' before end of string")
  | Some name, String c s' =>
      if Ascii.eqb c "}" then
        v ← get_field_value arguments name;
        rest ← format_go arguments None s';
        Ok (v +:+ rest)
      else if Ascii.eqb c "{" then
        Raise (ValueError "unexpected '{' in field name")
      else if str_mem c ".[!:" then
        Raise (Unmodelled "attribute, index, conversion or format specification")
      else format_go arguments (Some (name +:+ String c "")) s'
  end.

Definition str_format (template : string) (arguments : gmap string string)
  : result string :=
  format_go arguments None template.

(** [[f(v) for v in l]] for an [f] that may raise *)
Fixpoint map_result {A B} (f : A -> result B) (l : list A) : result (list B) :=
  match l with
  | [] => Ok []
  | x :: l' => y ← f x; ys ← map_result f l'; Ok (y :: ys)
  end.

Fixpoint format_recursive (template : value) (arguments : gmap string string)
  : result value :=
  match template with
  | VStr s => s' ← str_format s arguments; Ok (VStr s')
  | VDict items =>
      items' ←
        (fix go (items : list (string * value)) : result (list (string * value)) :=
           match items with
           | [] => Ok []
           | (k, v) :: rest =>
               v' ← format_recursive v arguments;
               rest' ← go rest;
               Ok ((k, v') :: rest')
           end) items;
      Ok (VDict items')
  | VList elems =>
      elems' ←
        (fix go (elems : list value) : result (list value) :=
           match elems with
           | [] => Ok []
           | v :: rest =>
               v' ← format_recursive v arguments;
               rest' ← go rest;
               Ok (v' :: rest')
           end) elems;
      Ok (VList elems')
  | VTuple elems => Ok (VTuple elems)
  | VAtom a => Ok (VAtom a)
  end.

(* ===================================================================== *)
(** * Objects validated like a record (lines 226-292) *)
(* ===================================================================== *)

(** A row of the [Record] table, as far as the conflict check reads it. *)
Record db_record : Type := mk_db_record {
  rec_id : N;
  rec_type : string;
  rec_name : string;
}.

(** The three (prefixed or not) fields of a [RecordLike] object, and what
    its [get_record_pk()] returns: the primary key of the stored record
    the object stands for, or [None]. *)
Inductive field : Type := F_type | F_name | F_content.

Record record_like : Type := mk_record_like {
  get_record_pk : option N;
  f_type : string;
  f_name : string;
  f_content : string;
}.

Definition get_field (self : record_like) (name : field) : string :=
  match name with
  | F_type => f_type self
  | F_name => f_name self
  | F_content => f_content self
  end.

Definition set_field (self : record_like) (name : field) (v : string)
  : record_like :=
  match name with
  | F_type => mk_record_like (get_record_pk self) v (f_name self) (f_content self)
  | F_name => mk_record_like (get_record_pk self) (f_type self) v (f_content self)
  | F_content => mk_record_like (get_record_pk self) (f_type self) (f_name self) v
  end.

(** [str.lower] on text of code points below 256: the capital letters
    A-Z and 192-222 (but the multiplication sign 215) are mapped to the
    small letter 32 code points above, every other character is left as
    it is. *)
Definition lower_char (c : ascii) : ascii :=
  let n := N_of_ascii c in
  if ((65 <=? n) && (n <=? 90)
      || (192 <=? n) && (n <=? 222) && negb (n =? 215))%N
  then ascii_of_N (n + 32) else c.

Fixpoint str_map (f : ascii -> ascii) (s : string) : string :=
  match s with
  | EmptyString => ""
  | String c s' => String (f c) (str_map f s')
  end.

Definition lower : string -> string := str_map lower_char.

(** [str.upper] on text of code points below 256: the small letters a-z
    and 224-254 (but the division sign 247) are mapped to the capital
    letter 32 code points below, the sharp s (223) becomes [SS], every
    other character is left as it is. The capitals of the micro sign
    (181) and of y with diaeresis (255) are above code point 255: there
    the result is [None], a text the embedding does not represent. *)
Definition upper_char (c : ascii) : option string :=
  let n := N_of_ascii c in
  if ((97 <=? n) && (n <=? 122)
      || (224 <=? n) && (n <=? 254) && negb (n =? 247))%N
  then Some (String (ascii_of_N (n - 32)) "")
  else if (n =? 223)%N then Some "SS"
  else if ((n =? 181) || (n =? 255))%N then None
  else Some (String c "").

Fixpoint upper (s : string) : option string :=
  match s with
  | EmptyString => Some ""
  | String c s' =>
      match upper_char c, upper s' with
      | Some u, Some r => Some (u +:+ r)
      | _, _ => None
      end
  end.

(** The truth value of a string in a condition *)
Definition truthy (s : string) : bool := negb (String.eqb s "").

(** [force_case]: the object as the method leaves it. Where the type in
    capitals is a text the embedding does not represent the result is
    [Raise (Unmodelled ...)], which is no exception of Python. *)
Definition force_case (self : record_like) : result record_like :=
  let self :=
    if truthy (get_field self F_name)
    then set_field self F_name (lower (get_field self F_name))
    else self in
  if truthy (get_field self F_type)
  then match upper (get_field self F_type) with
       | Some type_ => Ok (set_field self F_type type_)
       | None => Raise (Unmodelled "capital letters above code point 255")
       end
  else Ok self.

(** [x in t] for a tuple of strings *)
Definition str_in (x : string) (t : list string) : bool :=
  existsb (String.eqb x) t.

(** The inner function [check_unique] of [validate_for_conflicts]:
    [comment] is the text before the final [{}] of the message, [keep]
    the filter the keyword arguments stand for. *)
Definition check_unique (objects : list db_record) (self : record_like)
  (comment : string) (keep : db_record -> bool) : result unit :=
  let conflicting := List.filter keep objects in
  let conflicting :=
    match get_record_pk self with
    | Some record_pk =>
        List.filter (fun r => negb (rec_id r =? record_pk)%N) conflicting
    | None => conflicting
    end in
  match conflicting with
  | _ :: _ =>
      Raise (ValidationError
               (comment +:+ join ", " (map (fun r => str_of_N (rec_id r))
                                           conflicting)))
  | [] => Ok tt
  end.

Definition validate_for_conflicts (objects : list db_record)
  (self : record_like) : result unit :=
  if String.eqb (get_field self F_type) "CNAME" then
    check_unique objects self
      "Cannot create CNAME record. Following conflicting records exist: "
      (fun r => String.eqb (rec_name r) (get_field self F_name))
  else
    check_unique objects self
      "Cannot create a record. Following conflicting CNAMErecord exists: "
      (fun r => String.eqb (rec_type r) "CNAME"
                && String.eqb (rec_name r) (get_field self F_name)).

Section RecordLike.

(** Django's validators of IP addresses, which differ between releases. *)
Variable validate_ipv4_address : string -> result unit.
Variable validate_ipv6_address : string -> result unit.

Definition clean_content_field (self : record_like) : result unit :=
  let type_ := get_field self F_type in
  let content := get_field self F_content in
  if String.eqb type_ "A" then validate_ipv4_address content
  else if String.eqb type_ "AAAA" then validate_ipv6_address content
  else if String.eqb type_ "SOA" then validate_soa content
  else if str_in type_ DOMAIN_NAME_RECORDS then
    validate_domain_name content;;
    validate_name_equal_to_content (get_field self F_name) content
  else Ok tt.

(** [clean]: the object is changed by [force_case] only; the result is
    the object as [clean] leaves it. [Model.clean] does nothing. *)
Definition clean (objects : list db_record) (self : record_like)
  : result record_like :=
  clean_content_field self;;
  self ← force_case self;
  validate_for_conflicts objects self;;
  Ok self.

End RecordLike.

(** Validators of addresses on [ipaddress], as recent releases of Django
    define them (earlier ones match a regular expression). *)
Definition ipaddress_validate_ipv4 (value : string) : result unit :=
  match parse_ipv4 value with
  | Some _ => Ok tt
  | None => Raise (ValidationError "Enter a valid IPv4 address.")
  end.

Definition ipaddress_validate_ipv6 (value : string) : result unit :=
  match parse_ipv6 value with
  | Some _ => Ok tt
  | None => Raise (ValidationError "Enter a valid IPv6 address.")
  end.

(* ===================================================================== *)
(** * Differences of flat dictionaries (lines 295-314) *)
(* ===================================================================== *)

(** [d[key]] *)
Definition getitem {V} (d : gmap string V) (key : string) : result V :=
  match d !! key with
  | Some v => Ok v
  | None => Raise (KeyError key)
  end.

Definition _fmt {V} (old new : V) : gmap string V :=
  <["old" := old]> (<["new" := new]> ∅).

Definition flat_dict_diff {V} (old_dict new_dict : gmap string V)
  : result (gmap string (gmap string V)) :=
  let keys : gset string := dom old_dict ∩ dom new_dict in
  set_fold
    (fun key acc =>
       diff_result ← acc;
       old ← getitem old_dict key;
       new ← getitem new_dict key;
       Ok (<[key := _fmt old new]> diff_result))
    (Ok ∅) keys.

(* ===================================================================== *)
(** * The domain of a record name (lines 328-354) *)
(* ===================================================================== *)

(** A row of the [Domain] table. *)
Record domain : Type := mk_domain {
  dom_id : N;
  dom_name : string;
}.

(** [sorted(l, key=key, reverse=True)]: by decreasing key, elements of
    equal key in the order they had. *)
Fixpoint insert_desc {A} (key : A -> nat) (x : A) (l : list A) : list A :=
  match l with
  | [] => [x]
  | y :: l' =>
      if (key y <=? key x)%nat then x :: l else y :: insert_desc key x l'
  end.

Definition sorted_desc {A} (key : A -> nat) (l : list A) : list A :=
  foldr (insert_desc key) [] l.

(** [['.'.join(chunks[i:]) for i in range(len(chunks))]] *)
Definition partial_domains (chunks : list string) : list string :=
  map (fun i => join "." (skipn i chunks)) (seq 0 (length chunks)).

Definition find_domain_for_record (objects : list domain)
  (record_name : string) : option domain :=
  let chunks := split_on "." record_name in
  let search_partial_domains := partial_domains chunks in
  let matching_domains :=
    List.filter (fun d => str_in (dom_name d) search_partial_domains) objects in
  let matching_domains :=
    sorted_desc (fun d => String.length (dom_name d)) matching_domains in
  match matching_domains with
  | d :: _ => Some d
  | [] => None
  end.

(* ===================================================================== *)
(** * The grammars, as the specification words them *)
(* ===================================================================== *)

(** These definitions follow the specification, not the code; the
    theorems below compare the validators with them. *)

Definition is_alnum (c : ascii) : bool :=
  let n := N_of_ascii c in
  ((65 <=? n) && (n <=? 90) || (97 <=? n) && (n <=? 122)
   || (48 <=? n) && (n <=? 57))%N.

(** The characters of a label: [_A-Za-z0-9-] *)
Definition is_label_char (c : ascii) : bool :=
  is_alnum c || Ascii.eqb c "_" || Ascii.eqb c "-".

(** The characters of an optionally dotted name: [A-Za-z0-9.-] *)
Definition is_dn_char (c : ascii) : bool :=
  is_alnum c || Ascii.eqb c "." || Ascii.eqb c "-".

Definition nonempty_all (p : ascii -> bool) (s : string) : Prop :=
  s <> "" /\ str_all p s = true.

(** Each label followed by its dot *)
Fixpoint dotted (labels : list string) : string :=
  match labels with
  | [] => ""
  | l :: ls => l +:+ "." +:+ dotted ls
  end.

(** An optional leading [*.], then zero or more labels each terminated by
    a dot, then a non-empty alphanumeric label and nothing after it. *)
Definition domain_name_grammar (s : string) : Prop :=
  exists (wildcard : bool) (labels : list string) (last : string),
    s = (if wildcard then "*." else "") +:+ dotted labels +:+ last
    /\ Forall (nonempty_all is_label_char) labels
    /\ nonempty_all is_alnum last.

(** The optionally dotted name: any arrangement of [A-Za-z0-9.-],
    the empty one too. *)
Definition optionally_dotted_name (s : string) : bool := str_all is_dn_char s.

(** The time field: one or more digits. *)
Definition digits_only (s : string) : bool :=
  negb (String.eqb s "") && str_all is_digit s.

(** The fields of an SOA record in their order: the token, the name of the
    field in messages, and the grammar of the field. The first token that
    fails its grammar decides the error. *)
Fixpoint first_failure (checks : list (string * string * (string -> bool)))
  : result unit :=
  match checks with
  | [] => Ok tt
  | (token, field, grammar) :: rest =>
      if grammar token then first_failure rest
      else Raise (ValidationError
                    ("Incorrect " +:+ field +:+ ". Should be a valid domain name."))
  end.

(* ===================================================================== *)
(** * Conflicts and the clean sequence, as the specification words them *)
(* ===================================================================== *)

(** The stored record [r] is the one the validated object stands for. *)
Definition own_row (self : record_like) (r : db_record) : bool :=
  match get_record_pk self with
  | Some record_pk => (rec_id r =? record_pk)%N
  | None => false
  end.

(** [r] conflicts with the validated object: it has the same name, one of
    the two is a CNAME, and [r] is not the object's own row. *)
Definition conflicts_with (self : record_like) (r : db_record) : bool :=
  String.eqb (rec_name r) (f_name self)
  && (String.eqb (f_type self) "CNAME" || String.eqb (rec_type r) "CNAME")
  && negb (own_row self r).

(** The clean sequence of the specification: the case is normalised
    before any check runs. *)
Definition clean_normalized_first
  (validate_ipv4_address validate_ipv6_address : string -> result unit)
  (objects : list db_record) (self : record_like) : result record_like :=
  self ← force_case self;
  clean_content_field validate_ipv4_address validate_ipv6_address self;;
  validate_for_conflicts objects self;;
  Ok self.

(* ===================================================================== *)
(** * Suffixes of a name, as the specification words them *)
(* ===================================================================== *)

(** [suffix] is [name] or what is left of [name] after leading labels
    and their dots are dropped. *)
Definition label_suffix (name suffix : string) : Prop :=
  suffix = name \/ exists dropped, name = dropped +:+ "." +:+ suffix.

(* ===================================================================== *)
(** * Templates, as the specification words them *)
(* ===================================================================== *)


(** Literal text holds no brace. A key is a keyword: it holds none of
    the characters that end a field name or start an attribute, an
    index, a conversion or a format specification, it is no position (it
    has a character that is no digit), and the decimal digits it starts
    with, if any, make a number that a position could be (at most
    [PY_SSIZE_T_MAX]). *)
Definition plain_char (c : ascii) : bool := negb (str_mem c "{}").







(* ===================================================================== *)
(** * Notions the statements below are worded with *)
(* ===================================================================== *)

(** The strings of a list, one after the other *)
Fixpoint str_concat (ws : list string) : string :=
  match ws with
  | [] => ""
  | w :: ws' => w +:+ str_concat ws'
  end.

Definition not_space (c : ascii) : bool := negb (is_space c).

(** The text of the message of [validate_for_conflicts] before the
    identifiers *)
Definition conflict_comment (self : record_like) : string :=
  if String.eqb (f_type self) "CNAME"
  then "Cannot create CNAME record. Following conflicting records exist: "
  else "Cannot create a record. Following conflicting CNAMErecord exists: ".

(** The first element of [l], when there is one, has the greatest key. *)
Definition head_is_max {A} (key : A -> nat) (l : list A) : Prop :=
  forall d rest, l = d :: rest -> forall y, In y l -> key y <= key d.


(* ===================================================================== *)
(** * Notions the further properties are worded with *)
(* ===================================================================== *)

(** No string of the value holds a brace. *)
Fixpoint brace_free (v : value) : bool :=
  match v with
  | VStr s => str_all plain_char s
  | VDict items => forallb (fun it => brace_free it.2) items
  | VList elems => forallb brace_free elems
  | VTuple elems => forallb brace_free elems
  | VAtom _ => true
  end.

(** No stored CNAME record shares its name with another stored record. *)
Definition cname_exclusive (objects : list db_record) : Prop :=
  forall r1 r2, In r1 objects -> In r2 objects ->
    rec_name r1 = rec_name r2 -> rec_type r1 = "CNAME" -> r1 = r2.

(** The row that stores the object under the identifier [pk]. *)
Definition row_of (pk : N) (self : record_like) : db_record :=
  mk_db_record pk (f_type self) (f_name self).

(* ===================================================================== *)
(** * Properties *)
(* ===================================================================== *)

(** ** Results and strings *)

Lemma append_nil_l (s : string) : "" +:+ s = s.
Proof. reflexivity. Qed.

Lemma append_cons (c : ascii) (a b : string) :
  String c a +:+ b = String c (a +:+ b).
Proof. reflexivity. Qed.

Ltac str_simpl :=
  repeat (rewrite ?append_cons, ?append_nil_l in *; simpl in *).

Lemma append_nil_r (s : string) : s +:+ "" = s.
Proof. induction s; str_simpl; congruence. Qed.

Lemma append_assoc (a b c : string) : (a +:+ b) +:+ c = a +:+ (b +:+ c).
Proof. induction a; str_simpl; congruence. Qed.

Lemma str_all_app p (a b : string) :
  str_all p (a +:+ b) = str_all p a && str_all p b.
Proof.
  induction a as [|c a IH]; str_simpl; [reflexivity|].
  rewrite IH. apply andb_assoc.
Qed.

Lemma list_of_append (a b : string) :
  list_ascii_of_string (a +:+ b)
  = list_ascii_of_string a ++ list_ascii_of_string b.
Proof. induction a; str_simpl; congruence. Qed.

Lemma string_of_app (a b : list ascii) :
  string_of_list_ascii (a ++ b)
  = string_of_list_ascii a +:+ string_of_list_ascii b.
Proof. induction a; str_simpl; congruence. Qed.

Lemma append_eq_nil (a b : string) : a +:+ b = "" -> a = "" /\ b = "".
Proof. destruct a; str_simpl; intros H; [auto | discriminate]. Qed.

(** A split of [String c s] into two parts either has the first part empty
    or hands [c] to the first part. *)
Lemma append_eq_cons (a b : string) c s :
  a +:+ b = String c s ->
  (a = "" /\ b = String c s) \/ (exists a', a = String c a' /\ a' +:+ b = s).
Proof.
  destruct a as [|d a]; str_simpl; intros H; [left; auto|].
  injection H as -> <-. right. eexists; eauto.
Qed.

(** ** The matcher decides the words of a pattern *)

Section Regex.
Import Re.

Lemma lang_nil_nullable r : lang r "" -> nullable r = true.
Proof.
  intros H. remember "" as w eqn:Hw.
  induction H; simpl; try discriminate; auto.
  - apply append_eq_nil in Hw as [-> ->].
    rewrite IHlang1, IHlang2; auto.
  - rewrite IHlang; auto.
  - rewrite IHlang; auto using orb_true_r.
Qed.

Lemma nullable_lang_nil r : nullable r = true -> lang r "".
Proof.
  induction r; simpl; intros H; try discriminate.
  - constructor.
  - apply andb_true_iff in H as [H1 H2].
    change "" with ("" +:+ ""). constructor; auto.
  - apply orb_true_iff in H as [H|H]; [apply L_AltL | apply L_AltR]; auto.
  - constructor.
Qed.

(** A non-empty word of [r*] starts with a non-empty word of [r]. *)
Lemma lang_star_cons r c s :
  lang (Star r) (String c s) ->
  exists s1 s2, s = s1 +:+ s2 /\ lang r (String c s1) /\ lang (Star r) s2.
Proof.
  intros H. remember (Star r) as r' eqn:Hr. remember (String c s) as w eqn:Hw.
  revert c s Hw. induction H; intros c' s' Hw; try discriminate.
  injection Hr as ->.
  apply append_eq_cons in Hw as [[-> ->] | (a' & -> & <-)].
  - apply IHlang2; auto.
  - exists a', s2. auto.
Qed.

Lemma deriv_sound c r s : lang (deriv c r) s -> lang r (String c s).
Proof.
  revert s. induction r; simpl; intros s H.
  - inversion H.
  - inversion H.
  - destruct (Ascii.eqb_spec c c0) as [->|]; inversion H; subst. constructor.
  - destruct (in_set items c) eqn:E; inversion H; subst. constructor; auto.
  - destruct (nullable r1) eqn:E.
    + inversion H as [| | |? ? s1 s2 H1 H2| ? ? ? H1 | ? ? ? H1 | |]; subst.
      * inversion H1; subst. rewrite <- append_cons.
        constructor; auto.
      * change (String c s) with ("" +:+ String c s).
        constructor; auto using nullable_lang_nil.
    + inversion H; subst. rewrite <- append_cons. constructor; auto.
  - inversion H; subst; [apply L_AltL | apply L_AltR]; auto.
  - inversion H; subst. rewrite <- append_cons. apply L_StarS; auto.
Qed.

Lemma deriv_complete c r s : lang r (String c s) -> lang (deriv c r) s.
Proof.
  revert s. induction r; simpl; intros s H.
  - inversion H.
  - inversion H.
  - inversion H; subst. rewrite Ascii.eqb_refl. constructor.
  - inversion H; subst. rewrite H2. constructor.
  - inversion H as [| | |? ? s1 s2 H1 H2 Hr Hs| | | |]; subst.
    apply append_eq_cons in Hs as [[-> ->] | (a' & -> & <-)].
    + rewrite (lang_nil_nullable _ H1). apply L_AltR. auto.
    + destruct (nullable r1); [apply L_AltL|]; constructor; auto.
  - inversion H; subst; [apply L_AltL | apply L_AltR]; auto.
  - apply lang_star_cons in H as (s1 & s2 & -> & H1 & H2).
    constructor; auto.
Qed.

Lemma fullmatch_spec r s : fullmatch r s = true <-> lang r s.
Proof.
  revert r. induction s as [|c s IH]; intros r; simpl.
  - split; auto using lang_nil_nullable, nullable_lang_nil.
  - rewrite IH. split; auto using deriv_sound, deriv_complete.
Qed.

Lemma chomp_spec s t : chomp s = Some t <-> s = t +:+ String nl "".
Proof.
  revert t. induction s as [|c s IH]; intros t; simpl.
  - split; [discriminate|]. destruct t; discriminate.
  - destruct s as [|d s].
    + destruct (Ascii.eqb_spec c nl) as [->|Hne]; split; intros H.
      * injection H as <-. reflexivity.
      * destruct t as [|e t]; [reflexivity|].
        str_simpl. injection H as _ H. destruct t; discriminate.
      * discriminate.
      * destruct t as [|e t]; str_simpl; [congruence|].
        injection H as _ H. destruct t; discriminate.
    + case_eq (chomp (String d s)); [intros u E | intros E];
        simpl; split; intros H.
      * injection H as <-. apply IH in E. rewrite E. reflexivity.
      * destruct t as [|e t]; str_simpl; [discriminate|].
        injection H as <- H. apply IH in H. congruence.
      * discriminate.
      * destruct t as [|e t]; str_simpl; [discriminate|].
        injection H as <- H. apply IH in H. congruence.
Qed.

(** What [RegexValidator] accepts: a word of the pattern, or such a word
    followed by one newline. *)
Lemma search_anchored_spec r s :
  search_anchored r s = true <->
  lang r s \/ exists t, s = t +:+ String nl "" /\ lang r t.
Proof.
  unfold search_anchored. rewrite orb_true_iff, fullmatch_spec.
  split; intros [H|H]; auto.
  - destruct (chomp s) as [t|] eqn:E; [|discriminate].
    right. exists t. split; [apply chomp_spec, E | apply fullmatch_spec, H].
  - destruct H as (t & Hs & Ht). apply chomp_spec in Hs. rewrite Hs.
    right. apply fullmatch_spec, Ht.
Qed.

End Regex.

(** ** The languages of the three patterns *)

Section Grammars.
Import Re.

Lemma lang_star_iff r w :
  lang (Star r) w <-> exists ws, w = str_concat ws /\ Forall (lang r) ws.
Proof.
  split.
  - intros H. remember (Star r) as r' eqn:Hr.
    induction H; try discriminate; injection Hr as ->.
    + exists []. auto.
    + destruct (IHlang2 eq_refl) as (ws & -> & Hws).
      exists (s1 :: ws). auto.
  - intros (ws & -> & Hws). induction Hws; simpl; constructor; auto.
Qed.

Lemma lang_set_iff items w :
  lang (Set_ items) w <-> exists c, w = String c "" /\ in_set items c = true.
Proof.
  split.
  - intros H. inversion H; subst. eauto.
  - intros (c & -> & H). constructor; auto.
Qed.

Lemma lang_star_set items w :
  lang (Star (Set_ items)) w <-> str_all (in_set items) w = true.
Proof.
  rewrite lang_star_iff. split.
  - intros (ws & -> & Hws). induction Hws as [|x ws Hx _ IH]; [reflexivity|].
    apply lang_set_iff in Hx as (c & -> & Hc). simpl. str_simpl.
    rewrite Hc. auto.
  - induction w as [|c w IH]; simpl; intros H.
    + exists []. auto.
    + apply andb_true_iff in H as [Hc Hw].
      destruct (IH Hw) as (ws & -> & Hws).
      exists (String c "" :: ws). split; [reflexivity|].
      constructor; auto. constructor; auto.
Qed.

Lemma lang_plus_set items w :
  lang (Plus (Set_ items)) w <-> nonempty_all (in_set items) w.
Proof.
  unfold Plus, nonempty_all. split.
  - intros H. inversion H as [| | |? ? s1 s2 H1 H2| | | |]; subst.
    apply lang_set_iff in H1 as (c & -> & Hc).
    apply lang_star_set in H2. str_simpl. rewrite Hc. split; [discriminate|auto].
  - intros [Hne H]. destruct w as [|c w]; [congruence|].
    simpl in H. apply andb_true_iff in H as [Hc Hw].
    change (String c w) with (String c "" +:+ w).
    constructor; [constructor; auto | apply lang_star_set; auto].
Qed.

Lemma in_set_alnum c : in_set alnum c = is_alnum c.
Proof.
  unfold in_set, alnum, is_alnum. simpl.
  rewrite orb_false_r, !orb_assoc. reflexivity.
Qed.

Lemma in_set_label c : in_set label_set c = is_label_char c.
Proof.
  unfold in_set, label_set, is_label_char, is_alnum, alnum. simpl.
  rewrite orb_false_r.
  destruct (Ascii.eqb c "_"), (Ascii.eqb c "-"); simpl;
    rewrite ?orb_true_r, ?orb_false_r, ?orb_assoc; reflexivity.
Qed.

Lemma in_set_dn c :
  in_set (alnum ++ [Single "."; Single "-"]) c = is_dn_char c.
Proof.
  unfold in_set, is_dn_char, is_alnum, alnum. simpl.
  rewrite orb_false_r, !orb_assoc. reflexivity.
Qed.

Lemma in_set_digit c : in_set [Range "0" "9"] c = is_digit c.
Proof. unfold in_set, is_digit. simpl. apply orb_false_r. Qed.

Lemma str_all_ext p q s :
  (forall c, p c = q c) -> str_all p s = str_all q s.
Proof. intros H. induction s; simpl; congruence. Qed.

Lemma nonempty_all_ext p q s :
  (forall c, p c = q c) -> nonempty_all p s <-> nonempty_all q s.
Proof. intros H. unfold nonempty_all. rewrite (str_all_ext p q s H). tauto. Qed.

Lemma lang_labels w :
  lang (Star (Cat (Plus (Set_ label_set)) (Lit "."))) w <->
  exists labels,
    w = dotted labels /\ Forall (nonempty_all is_label_char) labels.
Proof.
  rewrite lang_star_iff. split.
  - intros (ws & -> & Hws). induction Hws as [|x ws Hx _ IH].
    + exists []. auto.
    + destruct IH as (labels & E & Hl).
      inversion Hx as [| | |? ? s1 s2 H1 H2| | | |]; subst.
      inversion H2; subst.
      apply lang_plus_set, (nonempty_all_ext _ _ _ in_set_label) in H1.
      exists (s1 :: labels). simpl. rewrite E, (append_assoc s1). auto.
  - intros (labels & -> & Hl). induction Hl as [|l labels Hl _ IH].
    + exists []. auto.
    + destruct IH as (ws & E & Hws).
      exists ((l +:+ ".") :: ws). simpl. rewrite E, (append_assoc l).
      split; [reflexivity|]. constructor; auto.
      constructor; [|constructor].
      apply lang_plus_set, (nonempty_all_ext _ _ _ in_set_label), Hl.
Qed.

Lemma lang_wildcard w :
  lang (Opt (Cat (Lit "*") (Lit "."))) w <->
  exists wildcard : bool, w = if wildcard then "*." else "".
Proof.
  unfold Opt. split.
  - intros H. inversion H as [| | | |? ? ? H1|? ? ? H1| |]; subst.
    + inversion H1 as [| | |? ? s1 s2 Ha Hb| | | |]; subst.
      inversion Ha; inversion Hb; subst. exists true. reflexivity.
    + inversion H1; subst. exists false. reflexivity.
  - intros [[] ->].
    + apply L_AltL. change "*." with ("*" +:+ "."). constructor; constructor.
    + apply L_AltR. constructor.
Qed.

Lemma lang_domain_name s : lang domain_name_re s <-> domain_name_grammar s.
Proof.
  unfold domain_name_re, domain_name_grammar. split.
  - intros H. inversion H as [| | |? ? s1 s23 H1 H23| | | |]; subst.
    inversion H23 as [| | |? ? s2 s3 H2 H3| | | |]; subst.
    apply lang_wildcard in H1 as [wildcard ->].
    apply lang_labels in H2 as (labels & -> & Hl).
    apply lang_plus_set, (nonempty_all_ext _ _ _ in_set_alnum) in H3.
    exists wildcard, labels, s3. auto.
  - intros (wildcard & labels & last & -> & Hl & Hlast).
    constructor; [|constructor].
    + apply lang_wildcard. eauto.
    + apply lang_labels. eauto.
    + apply lang_plus_set, (nonempty_all_ext _ _ _ in_set_alnum), Hlast.
Qed.

End Grammars.

(** ** Validators *)

Lemma RegexValidator_ok r value :
  RegexValidator r value = Ok tt <-> Re.search_anchored r value = true.
Proof.
  unfold RegexValidator. destruct (Re.search_anchored r value); split;
    (reflexivity || discriminate).
Qed.

Lemma RegexValidator_cases r value :
  RegexValidator r value = Ok tt
  \/ RegexValidator r value = Raise (ValidationError "Enter a valid value.").
Proof. unfold RegexValidator. destruct (Re.search_anchored r value); auto. Qed.

(** What the domain name validator accepts, in full: the names of the
    grammar, and each of them followed by one newline. *)
Lemma validate_domain_name_accepts s :
  validate_domain_name s = Ok tt <->
  domain_name_grammar s
  \/ exists t, s = t +:+ String nl "" /\ domain_name_grammar t.
Proof.
  unfold validate_domain_name.
  rewrite RegexValidator_ok, search_anchored_spec, lang_domain_name.
  split; intros [H|(t & E & H)]; auto; right; exists t;
    split; auto; apply lang_domain_name; auto.
Qed.

Lemma domain_name_grammar_dec s :
  domain_name_grammar s <-> Re.fullmatch domain_name_re s = true.
Proof. rewrite fullmatch_spec, lang_domain_name. reflexivity. Qed.

(** The four examples above the validator in the source. *)
Lemma validate_domain_name_examples :
  validate_domain_name "example.com" = Ok tt
  /\ validate_domain_name "*.example.com" = Ok tt
  /\ raises (validate_domain_name "example.com.")
  /\ raises (validate_domain_name "ex*mple.com").
Proof.
  repeat split; try reflexivity; eexists; vm_compute; reflexivity.
Qed.

(** C5 (the validator falls short of the claim): the domain name validator
    accepts the string made of example.com and a final newline, which is
    no name of the grammar: [$] also matches before a newline that ends
    the string. *)
Theorem validate_domain_name_trailing_newline :
  validate_domain_name ("example.com" +:+ String nl "") = Ok tt
  /\ ~ domain_name_grammar ("example.com" +:+ String nl "").
Proof.
  split; [reflexivity|].
  rewrite domain_name_grammar_dec. vm_compute. discriminate.
Qed.

(** ** [validate_soa] *)

(** The tokens of [s.split()] are not empty and hold no whitespace. *)
Lemma split_ws_tokens s : Forall (nonempty_all not_space) (split_ws s).
Proof.
  induction s as [|c s IH]; simpl; [constructor|].
  destruct (is_space c) eqn:Hc; [exact IH|].
  assert (Hone : nonempty_all not_space (String c "")).
  { split; [discriminate|]. simpl. unfold not_space. rewrite Hc. reflexivity. }
  destruct (starts_with_space s); [constructor; auto|].
  destruct (split_ws s) as [|w ws]; [constructor; auto|].
  inversion IH as [|? ? [_ Hw] Hws]; subst.
  constructor; auto. split; [discriminate|].
  simpl. unfold not_space at 1. rewrite Hc. exact Hw.
Qed.

(** A string without whitespace does not end in a newline, so [$] can
    only match at its end. *)
Lemma chomp_no_space t : str_all not_space t = true -> Re.chomp t = None.
Proof.
  intros H. destruct (Re.chomp t) as [u|] eqn:E; [|reflexivity].
  apply chomp_spec in E. subst t. rewrite str_all_app in H.
  apply andb_true_iff in H as [_ H]. discriminate.
Qed.

Lemma search_anchored_no_space r t :
  str_all not_space t = true -> Re.search_anchored r t = Re.fullmatch r t.
Proof.
  intros H. unfold Re.search_anchored. rewrite (chomp_no_space t H).
  apply orb_false_r.
Qed.

Lemma fullmatch_dn_optional_dot t :
  Re.fullmatch dn_optional_dot_re t = optionally_dotted_name t.
Proof.
  unfold dn_optional_dot_re, optionally_dotted_name.
  rewrite <- (str_all_ext _ _ t in_set_dn).
  apply eq_true_iff_eq. rewrite fullmatch_spec. apply lang_star_set.
Qed.

Lemma fullmatch_time t : Re.fullmatch time_re t = digits_only t.
Proof.
  unfold time_re, digits_only. apply eq_true_iff_eq.
  rewrite fullmatch_spec, lang_plus_set, andb_true_iff, negb_true_iff.
  rewrite (nonempty_all_ext _ _ t in_set_digit). unfold nonempty_all.
  rewrite String.eqb_neq. reflexivity.
Qed.

Lemma soa_check_dn t field :
  str_all not_space t = true ->
  soa_check validate_dn_optional_dot (t, field)
  = first_failure [(t, field, optionally_dotted_name)].
Proof.
  intros H. simpl. unfold validate_dn_optional_dot, RegexValidator.
  rewrite (search_anchored_no_space _ _ H), fullmatch_dn_optional_dot.
  destruct (optionally_dotted_name t); reflexivity.
Qed.

Lemma soa_check_time t field :
  str_all not_space t = true ->
  soa_check validate_time (t, field) = first_failure [(t, field, digits_only)].
Proof.
  intros H. simpl. unfold validate_time, RegexValidator.
  rewrite (search_anchored_no_space _ _ H), fullmatch_time.
  destruct (digits_only t); reflexivity.
Qed.

(** C6: [validate_soa] raises on every value that does not split into
    seven tokens; on seven tokens it checks name and e-mail as optionally
    dotted names and the five others as digits, stops at the first token
    that fails with a message naming its field, and returns when all
    pass. *)
Theorem validate_soa_spec value :
  (length (split_ws value) <> 7 ->
   validate_soa value = Raise (ValidationError "Enter a valid SOA record"))
  /\ (forall name email sn refresh retry expiry nx,
        split_ws value = [name; email; sn; refresh; retry; expiry; nx] ->
        validate_soa value
        = first_failure
            [(name, "Domain name", optionally_dotted_name);
             (email, "e-mail", optionally_dotted_name);
             (sn, "Serial", digits_only);
             (refresh, "Refresh rate", digits_only);
             (retry, "Retry rate", digits_only);
             (expiry, "Expiry time", digits_only);
             (nx, "Negative resp. time", digits_only)]).
Proof.
  split.
  - intros Hlen. unfold validate_soa.
    destruct (split_ws value) as [|? [|? [|? [|? [|? [|? [|? [|? ?]]]]]]]];
      try reflexivity. simpl in Hlen. congruence.
  - intros name email sn refresh retry expiry nx Hsplit.
    pose proof (split_ws_tokens value) as Htok. rewrite Hsplit in Htok.
    repeat match goal with
           | H : Forall _ (_ :: _) |- _ =>
               let Hx := fresh "Hx" in
               apply Forall_cons in H as [[_ Hx] H]
           end.
    unfold validate_soa. rewrite Hsplit.
    cbn [for_each].
    rewrite !soa_check_dn, !soa_check_time by assumption.
    cbn [first_failure].
    destruct (optionally_dotted_name name); [|reflexivity].
    destruct (optionally_dotted_name email); [|reflexivity].
    destruct (digits_only sn); [|reflexivity].
    destruct (digits_only refresh); [|reflexivity].
    destruct (digits_only retry); [|reflexivity].
    destruct (digits_only expiry); [|reflexivity].
    destruct (digits_only nx); reflexivity.
Qed.

Lemma validate_soa_spec_witness :
  validate_soa "ns.example.com hostmaster" 
  = Raise (ValidationError "Enter a valid SOA record")
  /\ validate_soa "ns.example.com hostmaster.example.com 2012 1 2 3 4" = Ok tt
  /\ validate_soa "ns.example.com hostmaster.example.com 2012 1 x 3 y"
     = Raise (ValidationError
                "Incorrect Retry rate. Should be a valid domain name.").
Proof.
  split; [|split].
  - apply (proj1 (validate_soa_spec "ns.example.com hostmaster")).
    vm_compute. lia.
  - rewrite (proj2 (validate_soa_spec
                      "ns.example.com hostmaster.example.com 2012 1 2 3 4")
               _ _ _ _ _ _ _ eq_refl).
    reflexivity.
  - rewrite (proj2 (validate_soa_spec
                      "ns.example.com hostmaster.example.com 2012 1 x 3 y")
               _ _ _ _ _ _ _ eq_refl).
    reflexivity.
Defined.

(** ** Splitting and joining *)

Lemma join_cons sep x y l :
  join sep (x :: y :: l) = x +:+ sep +:+ join sep (y :: l).
Proof. reflexivity. Qed.

Lemma join_app_last sep xs y :
  xs <> [] -> join sep (xs ++ [y]) = join sep xs +:+ sep +:+ y.
Proof.
  induction xs as [|x xs IH]; [congruence|]. intros _.
  destruct xs as [|x' xs]; [reflexivity|].
  change ((x :: x' :: xs) ++ [y]) with (x :: x' :: (xs ++ [y])).
  rewrite !join_cons. change (x' :: xs ++ [y]) with ((x' :: xs) ++ [y]).
  rewrite IH by discriminate. rewrite !append_assoc. reflexivity.
Qed.

Lemma split_on_nosep sep w : str_mem sep w = false -> split_on sep w = [w].
Proof.
  induction w as [|c w IH]; simpl; [reflexivity|]. intros H.
  apply orb_false_iff in H as [Hc Hw].
  rewrite Ascii.eqb_sym, Hc, (IH Hw). reflexivity.
Qed.

Lemma split_on_app sep w rest :
  str_mem sep w = false ->
  split_on sep (w +:+ String sep rest) = w :: split_on sep rest.
Proof.
  induction w as [|c w IH]; intros H; str_simpl.
  - rewrite Ascii.eqb_refl. reflexivity.
  - apply orb_false_iff in H as [Hc Hw].
    rewrite Ascii.eqb_sym, Hc, (IH Hw). reflexivity.
Qed.

Lemma split_on_join sep l :
  l <> [] -> Forall (fun w => str_mem sep w = false) l ->
  split_on sep (join (String sep "") l) = l.
Proof.
  intros Hne H. induction H as [|w l Hw Hl IH]; [congruence|].
  destruct l as [|w' l].
  - simpl. apply split_on_nosep, Hw.
  - rewrite join_cons. str_simpl. rewrite (split_on_app _ _ _ Hw).
    rewrite IH by discriminate. reflexivity.
Qed.

Lemma split_on_nonempty sep s : split_on sep s <> [].
Proof.
  destruct s as [|c s]; simpl; [discriminate|].
  destruct (Ascii.eqb c sep); [discriminate|].
  destruct (split_on sep s); discriminate.
Qed.

Lemma join_split sep s : join (String sep "") (split_on sep s) = s.
Proof.
  induction s as [|c s IH]; [reflexivity|]. simpl.
  pose proof (split_on_nonempty sep s) as Hne.
  destruct (Ascii.eqb_spec c sep) as [->|Hc].
  - destruct (split_on sep s) as [|w ws]; [congruence|].
    rewrite join_cons, IH. reflexivity.
  - destruct (split_on sep s) as [|w ws]; [congruence|].
    destruct ws as [|w' ws].
    + simpl in *. congruence.
    + rewrite join_cons in *. str_simpl. congruence.
Qed.

Lemma chars_map s :
  chars s = map (fun c => String c "") (list_ascii_of_string s).
Proof. induction s; simpl; congruence. Qed.

Lemma chars_length s : length (chars s) = String.length s.
Proof. induction s; simpl; congruence. Qed.

Lemma chars_rev s : chars (str_rev s) = rev (chars s).
Proof.
  unfold str_rev. rewrite !chars_map, list_ascii_of_string_of_list_ascii.
  apply map_rev.
Qed.

Lemma str_rev_cons c s : str_rev (String c s) = str_rev s +:+ String c "".
Proof. unfold str_rev. simpl. apply string_of_app. Qed.

Lemma remove_char_app c a b :
  remove_char c (a +:+ b) = remove_char c a +:+ remove_char c b.
Proof.
  induction a as [|d a IH]; str_simpl; [reflexivity|].
  destruct (Ascii.eqb d c); str_simpl; congruence.
Qed.

Lemma remove_char_rev c s :
  remove_char c (str_rev s) = str_rev (remove_char c s).
Proof.
  induction s as [|d s IH]; [reflexivity|].
  rewrite str_rev_cons, remove_char_app, IH. simpl.
  destruct (Ascii.eqb d c); [apply append_nil_r|].
  rewrite str_rev_cons. reflexivity.
Qed.

Lemma remove_char_absent c s : str_mem c s = false -> remove_char c s = s.
Proof.
  induction s as [|d s IH]; simpl; [reflexivity|]. intros H.
  apply orb_false_iff in H as [Hd Hs].
  rewrite Ascii.eqb_sym, Hd, (IH Hs). reflexivity.
Qed.

Lemma str_mem_app c a b : str_mem c (a +:+ b) = str_mem c a || str_mem c b.
Proof.
  induction a as [|d a IH]; str_simpl; [reflexivity|].
  rewrite IH. apply orb_assoc.
Qed.

Lemma remove_char_join c l :
  Forall (fun w => str_mem c w = false) l ->
  remove_char c (join (String c "") l) = str_concat l.
Proof.
  induction 1 as [|w l Hw Hl IH]; [reflexivity|].
  destruct l as [|w' l].
  - simpl. rewrite append_nil_r. apply remove_char_absent, Hw.
  - rewrite join_cons, !remove_char_app, IH, (remove_char_absent _ _ Hw).
    simpl. rewrite Ascii.eqb_refl. reflexivity.
Qed.

(** A non-empty list is its last element after the others. *)
Lemma rev_last_removelast {A} (l : list A) d :
  l <> [] -> rev l = List.last l d :: rev (removelast l).
Proof.
  intros Hne. rewrite (app_removelast_last d Hne) at 1.
  rewrite rev_app_distr. reflexivity.
Qed.

(** ** Hexadecimal digits and the exploded form *)

Lemma substring_split k s :
  s = substring 0 k s +:+ substring k (String.length s - k) s.
Proof.
  revert k. induction s as [|c s IH]; intros k.
  - destruct k; reflexivity.
  - destruct k as [|k]; simpl.
    + str_simpl. f_equal. clear IH. induction s as [|d s IH]; simpl; congruence.
    + str_simpl. f_equal. apply IH.
Qed.

Lemma substring_length_drop k s :
  String.length (substring k (String.length s - k) s) = String.length s - k.
Proof.
  revert k. induction s as [|c s IH]; intros k.
  - destruct k; reflexivity.
  - destruct k as [|k]; simpl.
    + f_equal. clear IH. induction s as [|d s IH]; simpl; congruence.
    + apply IH.
Qed.

Lemma str_mem_substring c a b s :
  str_mem c s = false -> str_mem c (substring a b s) = false.
Proof.
  revert a b. induction s as [|d s IH]; intros a b H.
  - destruct a, b; reflexivity.
  - simpl in H. apply orb_false_iff in H as [Hd Hs].
    destruct a as [|a]; [destruct b as [|b]|]; simpl; auto.
    rewrite Hd. simpl. auto.
Qed.

Lemma groups4_concat fuel s :
  String.length s <= 4 * fuel -> str_concat (groups4 fuel s) = s.
Proof.
  revert s. induction fuel as [|fuel IH]; intros s Hlen.
  - destruct s; [reflexivity | simpl in Hlen; lia].
  - destruct s as [|c s]; [reflexivity|].
    cbn [groups4 str_concat]. rewrite IH.
    + symmetry. apply substring_split.
    + rewrite substring_length_drop. lia.
Qed.

Lemma groups4_absent c fuel s :
  str_mem c s = false ->
  Forall (fun w => str_mem c w = false) (groups4 fuel s).
Proof.
  revert s. induction fuel as [|fuel IH]; intros s H; [constructor|].
  destruct s as [|d s]; [constructor|]. cbn [groups4].
  constructor; [|apply IH]; apply str_mem_substring, H.
Qed.

Lemma str_mem_of_list c l :
  str_mem c (string_of_list_ascii l) = existsb (Ascii.eqb c) l.
Proof. induction l; simpl; congruence. Qed.

Lemma length_of_list l : String.length (string_of_list_ascii l) = length l.
Proof. induction l; simpl; congruence. Qed.

Lemma str_length_app a b :
  String.length (a +:+ b) = String.length a + String.length b.
Proof. induction a; str_simpl; congruence. Qed.

Lemma hex_digit_not_colon d : (d < 16)%N -> Ascii.eqb ":" (hex_digit d) = false.
Proof.
  intros H.
  assert (Hd : In d (map N.of_nat (seq 0 16))).
  { apply in_map_iff. exists (N.to_nat d). split; [lia|].
    apply in_seq. lia. }
  simpl in Hd.
  repeat (destruct Hd as [<-|Hd]; [reflexivity|]). destruct Hd.
Qed.

Lemma hex_le_no_colon fuel n : existsb (Ascii.eqb ":") (hex_le fuel n) = false.
Proof.
  revert n. induction fuel as [|fuel IH]; intros n; [reflexivity|].
  cbn [hex_le]. destruct (n =? 0)%N; [reflexivity|]. cbn [existsb].
  rewrite IH, hex_digit_not_colon; [reflexivity|].
  apply N.mod_lt. discriminate.
Qed.

Lemma existsb_rev {A} (p : A -> bool) l : existsb p (rev l) = existsb p l.
Proof.
  induction l as [|x l IH]; [reflexivity|]. simpl.
  rewrite existsb_app, IH. simpl. rewrite orb_false_r. apply orb_comm.
Qed.

Lemma existsb_repeat_false {A} (p : A -> bool) x k :
  p x = false -> existsb p (repeat x k) = false.
Proof. intros H. induction k; simpl; [reflexivity|]. rewrite H. auto. Qed.

Lemma hex_no_colon n : str_mem ":" (hex n) = false.
Proof.
  unfold hex. destruct (n =? 0)%N; [reflexivity|].
  rewrite str_mem_of_list, existsb_rev. apply hex_le_no_colon.
Qed.

Lemma hex032_no_colon n : str_mem ":" (hex032 n) = false.
Proof.
  unfold hex032, zero_pad.
  rewrite str_mem_app, str_mem_of_list, hex_no_colon.
  rewrite existsb_repeat_false; reflexivity.
Qed.

Lemma hex_le_length fuel n k :
  (n < 16 ^ N.of_nat k)%N -> length (hex_le fuel n) <= k.
Proof.
  revert n k. induction fuel as [|fuel IH]; intros n k H; simpl; [lia|].
  destruct (N.eqb_spec n 0) as [->|Hn]; simpl; [lia|].
  destruct k as [|k].
  - simpl in H. lia.
  - apply le_n_S, IH.
    rewrite Nat2N.inj_succ, N.pow_succ_r' in H.
    apply N.Div0.div_lt_upper_bound. exact H.
Qed.

Lemma hex_length n k :
  (0 < k)%nat -> (n < 16 ^ N.of_nat k)%N -> String.length (hex n) <= k.
Proof.
  intros Hk H. unfold hex. destruct (n =? 0)%N; [simpl; lia|].
  rewrite length_of_list, length_rev. apply hex_le_length, H.
Qed.

Lemma zero_pad_length width s :
  String.length (zero_pad width s) = Nat.max width (String.length s).
Proof.
  unfold zero_pad. rewrite str_length_app, length_of_list, repeat_length. lia.
Qed.

Lemma hex032_length_ge n : 32 <= String.length (hex032 n).
Proof. unfold hex032. rewrite zero_pad_length. lia. Qed.

Lemma hex032_length n :
  (n < 2 ^ 128)%N -> String.length (hex032 n) = 32.
Proof.
  intros H. unfold hex032. rewrite zero_pad_length.
  assert (String.length (hex n) <= 32); [|lia].
  apply hex_length; [lia|]. change (16 ^ N.of_nat 32)%N with (2 ^ 128)%N.
  exact H.
Qed.

Lemma hex_val_digit d : (d < 16)%N -> hex_val (hex_digit d) = Some d.
Proof.
  intros H.
  assert (Hd : In d (map N.of_nat (seq 0 16))).
  { apply in_map_iff. exists (N.to_nat d). split; [lia|].
    apply in_seq. lia. }
  simpl in Hd.
  repeat (destruct Hd as [<-|Hd]; [reflexivity|]). destruct Hd.
Qed.

Lemma hex_le_value fuel n :
  (n < 16 ^ N.of_nat fuel)%N ->
  fold_right (fun c acc => 16 * acc + default 0 (hex_val c))%N 0%N
             (hex_le fuel n) = n.
Proof.
  revert n. induction fuel as [|fuel IH]; intros n H.
  - simpl in *. lia.
  - cbn [hex_le]. destruct (N.eqb_spec n 0) as [->|Hn]; [reflexivity|].
    cbn [fold_right]. rewrite IH, hex_val_digit.
    + simpl. symmetry. apply N.Div0.div_mod.
    + apply N.mod_lt. discriminate.
    + rewrite Nat2N.inj_succ, N.pow_succ_r' in H.
      apply N.Div0.div_lt_upper_bound. exact H.
Qed.

Lemma int16_zeros k l acc :
  fold_left (fun acc c => 16 * acc + default 0 (hex_val c))%N
            (repeat "0"%char k ++ l) acc
  = fold_left (fun acc c => 16 * acc + default 0 (hex_val c))%N l
              (acc * 16 ^ N.of_nat k)%N.
Proof.
  revert acc. induction k as [|k IH]; intros acc.
  - simpl. rewrite N.mul_1_r. reflexivity.
  - cbn [repeat app fold_left]. rewrite IH. f_equal.
    rewrite Nat2N.inj_succ, N.pow_succ_r'. simpl. lia.
Qed.

(** The digits of ['%x' % n] and of ['%032x' % n] denote [n]. *)
Lemma int16_hex n : int16 (hex n) = n.
Proof.
  unfold int16, hex. destruct (N.eqb_spec n 0) as [->|Hn]; [reflexivity|].
  rewrite list_ascii_of_string_of_list_ascii, <- fold_left_rev_right, rev_involutive.
  apply hex_le_value. rewrite N2Nat.id.
  eapply N.lt_le_trans; [apply N.size_gt|].
  apply N.pow_le_mono_l. lia.
Qed.

Lemma int16_hex032 n : int16 (hex032 n) = n.
Proof.
  unfold hex032, zero_pad, int16.
  rewrite list_of_append, list_ascii_of_string_of_list_ascii, int16_zeros.
  apply int16_hex.
Qed.

(** The exploded form of an address without scope identifier, and that
    form without its colons: the 32 digits. *)
Lemma exploded_digits n :
  (n < 2 ^ 128)%N ->
  exists e, exploded n None = Ok e /\ remove_char ":" e = hex032 n.
Proof.
  intros H. eexists. split; [reflexivity|].
  rewrite remove_char_join by apply groups4_absent, hex032_no_colon.
  apply groups4_concat. rewrite (hex032_length n H). lia.
Qed.

(** ** What the address parsers return *)

Lemma hex_val_le c : (default 0 (hex_val c) <= 15)%N.
Proof.
  unfold hex_val.
  repeat match goal with
         | |- context [if ?b then _ else _] => destruct b eqn:?
         end; simpl; try lia;
    repeat match goal with
           | H : (_ && _) = true |- _ => apply andb_true_iff in H as [? ?]
           | H : (_ <=? _)%N = true |- _ => apply N.leb_le in H
           end; lia.
Qed.

Lemma int16_fold l acc :
  (fold_left (fun acc c => 16 * acc + default 0 (hex_val c)) l acc + 1
   <= (acc + 1) * 16 ^ N.of_nat (length l))%N.
Proof.
  revert acc. induction l as [|c l IH]; intros acc.
  - simpl. lia.
  - cbn [fold_left length]. etransitivity; [apply IH|].
    rewrite Nat2N.inj_succ, N.pow_succ_r'.
    pose proof (hex_val_le c). nia.
Qed.

Lemma list_of_string_length s :
  length (list_ascii_of_string s) = String.length s.
Proof. induction s; simpl; congruence. Qed.

Lemma parse_hextet_bound s h : _parse_hextet s = Some h -> (h < 2 ^ 16)%N.
Proof.
  unfold _parse_hextet. intros H.
  destruct (negb (str_all is_hex_digit s)); [discriminate|].
  destruct (Nat.ltb_spec 4 (String.length s)) as [|Hlen]; [discriminate|].
  destruct (String.eqb s ""); [discriminate|]. injection H as <-.
  unfold int16. pose proof (int16_fold (list_ascii_of_string s) 0) as Hb.
  rewrite list_of_string_length in Hb.
  assert (16 ^ N.of_nat (String.length s) <= 16 ^ 4)%N.
  { apply N.pow_le_mono_r; lia. }
  change (2 ^ 16)%N with (16 ^ 4)%N. lia.
Qed.

Lemma log2_lt_pow2' x m : (0 < m)%N -> (x < 2 ^ m)%N -> (N.log2 x < m)%N.
Proof.
  intros Hm H. destruct (N.eq_dec x 0%N) as [->|Hx]; [exact Hm|].
  apply N.log2_lt_pow2; [lia | exact H].
Qed.

Lemma lor_lt_pow2 x y m :
  (0 < m)%N -> (x < 2 ^ m)%N -> (y < 2 ^ m)%N -> (N.lor x y < 2 ^ m)%N.
Proof.
  intros Hm Hx Hy. destruct (N.eq_dec (N.lor x y) 0%N) as [->|Hz].
  - apply N.neq_0_lt_0, N.pow_nonzero. discriminate.
  - apply N.log2_lt_pow2; [lia|]. rewrite N.log2_lor.
    apply N.max_lub_lt; apply log2_lt_pow2'; assumption.
Qed.

Lemma shift_step_bound a h k :
  (a < 2 ^ (16 * N.of_nat k))%N -> (h < 2 ^ 16)%N ->
  (N.lor (N.shiftl a 16) h < 2 ^ (16 * N.of_nat (S k)))%N.
Proof.
  intros Ha Hh.
  assert (E : (16 * N.of_nat (S k) = 16 * N.of_nat k + 16)%N) by lia.
  apply lor_lt_pow2; [lia| |].
  - rewrite N.shiftl_mul_pow2, E, N.pow_add_r.
    apply N.mul_lt_mono_pos_r; [reflexivity | exact Ha].
  - eapply N.lt_le_trans; [exact Hh|]. apply N.pow_le_mono_r; lia.
Qed.

Lemma shift_hextets_none parts :
  fold_left
    (fun acc part =>
       ip_int ← acc; h ← _parse_hextet part;
       Some (N.lor (N.shiftl ip_int 16) h)) parts None = None.
Proof. induction parts; simpl; auto. Qed.

Lemma shift_hextets_bound parts a b k :
  shift_hextets a parts = Some b ->
  (a < 2 ^ (16 * N.of_nat k))%N ->
  (b < 2 ^ (16 * N.of_nat (k + length parts)))%N.
Proof.
  unfold shift_hextets. revert a k.
  induction parts as [|p parts IH]; intros a k H Ha.
  - simpl in H. injection H as <-. rewrite Nat.add_0_r. exact Ha.
  - cbn [fold_left] in H. simpl in H.
    destruct (_parse_hextet p) as [h|] eqn:Hp; simpl in H.
    + cbn [length]. replace (k + S (length parts)) with (S k + length parts) by lia.
      apply (IH _ _ H). apply shift_step_bound; eauto using parse_hextet_bound.
    + rewrite shift_hextets_none in H. discriminate.
Qed.

(** The two runs of hextets and the gap between them fill at most the
    eight hextets of an address. *)
Lemma hextets_bound parts hi lo skipped ip_int n :
  hi + lo + skipped <= 8 ->
  shift_hextets 0 (firstn hi parts) = Some ip_int ->
  shift_hextets (N.shiftl ip_int (16 * N.of_nat skipped))
                (skipn (length parts - lo) parts) = Some n ->
  (n < 2 ^ 128)%N.
Proof.
  intros Hsum H1 H2.
  apply (shift_hextets_bound _ _ _ 0) in H1; [|simpl; lia].
  apply (shift_hextets_bound _ _ _ (length (firstn hi parts) + skipped)) in H2.
  - eapply N.lt_le_trans; [exact H2|]. apply N.pow_le_mono_r; [lia|].
    rewrite length_firstn, length_skipn in *. lia.
  - rewrite N.shiftl_mul_pow2.
    replace (16 * N.of_nat (length (firstn hi parts) + skipped))%N
      with (16 * N.of_nat (0 + length (firstn hi parts))
            + 16 * N.of_nat skipped)%N by lia.
    rewrite N.pow_add_r. apply N.mul_lt_mono_pos_r; [|exact H1].
    apply N.neq_0_lt_0, N.pow_nonzero. discriminate.
Qed.

Lemma v6_int_from_string_bound ip n :
  v6_int_from_string ip = Some n -> (n < 2 ^ 128)%N.
Proof.
  unfold v6_int_from_string. intros H.
  destruct (String.eqb ip ""); [discriminate|].
  destruct (length (split_on ":" ip) <? 3)%nat; [discriminate|].
  match type of H with (?m ≫= _) = _ => destruct m as [parts|] end;
    [|discriminate].
  simpl in H.
  destruct (9 <? length parts)%nat; [discriminate|].
  destruct (find_skip parts) as [skip_index|]; [|discriminate]. simpl in H.
  match type of H with (?m ≫= _) = _ =>
    destruct m as [[[hi lo] skipped]|] eqn:Hm end; [|discriminate].
  simpl in H.
  destruct (shift_hextets 0 (firstn hi parts)) as [ip_int|] eqn:H1;
    [|discriminate].
  simpl in H. refine (hextets_bound parts hi lo skipped ip_int n _ H1 H).
  destruct skip_index as [k|].
  - repeat match type of Hm with
           | (if ?b then _ else _) = _ => destruct b eqn:?; [discriminate|]
           end.
    injection Hm as <- <- <-.
    match goal with H : (8 <? _)%nat = false |- _ => apply Nat.ltb_ge in H end.
    lia.
  - repeat match type of Hm with
           | (if ?b then _ else _) = _ => destruct b eqn:?; [discriminate|]
           end.
    injection Hm as <- <- <-.
    match goal with
    | H : negb (_ =? 8)%nat = false |- _ =>
        apply negb_false_iff, Nat.eqb_eq in H
    end. lia.
Qed.

Lemma parse_ipv6_bound ip n scope_id :
  parse_ipv6 ip = Some (n, scope_id) -> (n < 2 ^ 128)%N.
Proof.
  unfold parse_ipv6. destruct (str_mem "/" ip); [discriminate|].
  destruct (_split_scope_id ip) as [[addr_str scope]|]; [|discriminate].
  simpl. destruct (v6_int_from_string addr_str) as [m|] eqn:E; [|discriminate].
  simpl. intros H. injection H as <- _.
  apply (v6_int_from_string_bound _ _ E).
Qed.

Lemma str_of_N_octet b : (b < 256)%N -> str_mem "." (str_of_N b) = false.
Proof.
  intros H.
  assert (Hall : forallb (fun k => negb (str_mem "." (str_of_N (N.of_nat k))))
                         (seq 0 256) = true) by (vm_compute; reflexivity).
  rewrite forallb_forall in Hall.
  specialize (Hall (N.to_nat b)). rewrite N2Nat.id in Hall.
  apply negb_true_iff, Hall, in_seq. lia.
Qed.

Lemma to_bytes4_octets n :
  Forall (fun w => str_mem "." w = false) (map str_of_N (to_bytes4 n)).
Proof.
  unfold to_bytes4. repeat constructor;
    apply str_of_N_octet, N.mod_lt; discriminate.
Qed.

(** ** The octets of an IPv4 address, as they are written *)

Lemma is_digit_cases c :
  is_digit c = true ->
  In c ["0"; "1"; "2"; "3"; "4"; "5"; "6"; "7"; "8"; "9"]%char.
Proof.
  destruct c as [[] [] [] [] [] [] [] []]; simpl; intros H;
    try discriminate H; tauto.
Qed.

(** An octet is parsed from its decimal notation only. *)
Lemma parse_octet_canonical a o : _parse_octet a = Some o -> str_of_N o = a.
Proof.
  unfold _parse_octet. intros H.
  destruct (String.eqb a "") eqn:Ee; [discriminate|].
  destruct (str_all is_digit a) eqn:Ed; [|discriminate]. simpl in H.
  destruct (Nat.ltb_spec 3 (String.length a)) as [|Hlen]; [discriminate|].
  destruct a as [|c1 [|c2 [|c3 [|c4 a]]]]; simpl in Hlen; try lia;
    try discriminate Ee; simpl in Ed;
    repeat match goal with
           | H : _ && _ = true |- _ => apply andb_true_iff in H as [? H]
           | H : is_digit _ = true |- _ => apply is_digit_cases in H
           end;
    repeat match goal with
           | H : In _ _ |- _ => simpl in H; decompose [or] H; clear H
           end; subst; try contradiction;
    vm_compute in H; try discriminate H; injection H as <-; reflexivity.
Qed.

Lemma parse_octet_bound a o : _parse_octet a = Some o -> (o < 256)%N.
Proof.
  unfold _parse_octet. intros H.
  repeat match type of H with
         | (if ?b then _ else _) = _ => destruct b eqn:?; [discriminate|]
         end.
  cbv zeta in H. destruct (N.ltb_spec 255 (int10 a)); [discriminate|].
  injection H as <-. lia.
Qed.

Lemma to_bytes4_from_bytes a b c d :
  (a < 256)%N -> (b < 256)%N -> (c < 256)%N -> (d < 256)%N ->
  to_bytes4 (from_bytes_big [a; b; c; d]) = [a; b; c; d].
Proof.
  intros Ha Hb Hc Hd. unfold to_bytes4, from_bytes_big. simpl.
  repeat f_equal; zify; Z.to_euclidean_division_equations; lia.
Qed.

(** An IPv4 address is parsed from its dotted decimal notation only:
    the octets [to_reverse] returns are the octets as they are written. *)
Lemma parse_ipv4_written ip n :
  parse_ipv4 ip = Some n ->
  split_on "." ip = map str_of_N (to_bytes4 n).
Proof.
  unfold parse_ipv4, v4_int_from_string. intros H.
  destruct (str_mem "/" ip); [discriminate|].
  destruct (String.eqb ip ""); [discriminate|].
  destruct (split_on "." ip) as [|a [|b [|c [|d [|e l]]]]]; try discriminate.
  destruct (_parse_octet a) as [oa|] eqn:Ea; [|discriminate].
  destruct (_parse_octet b) as [ob|] eqn:Eb; [|discriminate].
  destruct (_parse_octet c) as [oc|] eqn:Ec; [|discriminate].
  destruct (_parse_octet d) as [od|] eqn:Ed; [|discriminate].
  simpl in H. injection H as <-.
  rewrite to_bytes4_from_bytes by eauto using parse_octet_bound.
  simpl. rewrite !(parse_octet_canonical _ _ Ea), !(parse_octet_canonical _ _ Eb),
    !(parse_octet_canonical _ _ Ec), !(parse_octet_canonical _ _ Ed).
  reflexivity.
Qed.

(** ** Reverse pointers *)

Lemma ip_address_v4 ip n :
  ip_address ip = Ok (IPv4Address n) -> parse_ipv4 ip = Some n.
Proof.
  unfold ip_address. destruct (parse_ipv4 ip); [congruence|].
  destruct (parse_ipv6 ip) as [[m scope]|]; discriminate.
Qed.

Lemma ip_address_v6 ip n scope_id :
  ip_address ip = Ok (IPv6Address n scope_id) ->
  parse_ipv6 ip = Some (n, scope_id).
Proof.
  unfold ip_address. destruct (parse_ipv4 ip); [discriminate|].
  destruct (parse_ipv6 ip) as [[m scope]|]; [congruence | discriminate].
Qed.

Lemma removelast_nonempty {A} (l : list A) : 2 <= length l -> removelast l <> [].
Proof. destruct l as [|x [|y l]]; simpl; intros H; [lia | lia | discriminate]. Qed.

(** The two branches of [_reverse_ip] end alike: on the units [l] of the
    address in their written order, the result is the last unit and the
    others in reversed order, joined with the suffix. *)
Lemma reverse_units (l : list string) (domain_suffix : string) :
  2 <= length l ->
  ('(unpacked, domain_suffix) ←
     (u ← unpack_head_rest (rev l); Ok (u, domain_suffix));
   let '(last_byte, first_bytes_reversed) := unpacked in
   Ok (last_byte, join "." (first_bytes_reversed ++ [domain_suffix])))
  = Ok (List.last l "",
        join "." (rev (removelast l)) +:+ "." +:+ domain_suffix).
Proof.
  intros Hlen.
  assert (Hne : l <> []) by (destruct l; [simpl in Hlen; lia | discriminate]).
  rewrite (rev_last_removelast l "" Hne). simpl.
  rewrite join_app_last; [reflexivity|].
  intros E. apply (f_equal (@length _)) in E. rewrite length_rev in E.
  apply (removelast_nonempty l Hlen). destruct (removelast l); [reflexivity|].
  discriminate.
Qed.

(** C3 (the code falls short of the claim): a string with a scope
    identifier parses as a valid IPv6 address, and [to_reverse] does not
    return the pair of the claim for it: it raises the
    [AddressValueError] of [exploded]. *)
Theorem to_reverse_scope_id :
  ip_address "fe80::1%eth0"
  = Ok (IPv6Address 338288524927261089654018896841347694593 (Some "eth0"))
  /\ to_reverse "fe80::1%eth0" = Raise AddressValueError
  /\ to_reverse "fe80::1" = Ok ("1", "0.0.0.0.0.0.0.0.0.0.0.0.0.0.0.0.0.0.0.0.0.0.0.0.0.0.0.0.8.e.f.ip6.arpa").
Proof. repeat split; vm_compute; reflexivity. Qed.

(** X21: what [to_reverse] does with every string. For an IPv4 address, whose
    octets are the ones written in the string, it returns the last octet
    and the other octets in reversed order, dot-joined and followed by
    .in-addr.arpa; for an IPv6 address without scope identifier the last
    of the 32 hexadecimal digits of the exploded form and the other 31 in
    reversed order, dot-joined and followed by .ip6.arpa; for an IPv6
    address with a scope identifier it raises [AddressValueError]; for a
    string that is no address it raises the [ValueError] of
    [ip_address]. *)
Theorem to_reverse_cases ip :
  (forall n, ip_address ip = Ok (IPv4Address n) ->
     split_on "." ip = map str_of_N (to_bytes4 n)
     /\ to_reverse ip
        = Ok (List.last (map str_of_N (to_bytes4 n)) "",
              join "." (rev (removelast (map str_of_N (to_bytes4 n))))
              +:+ ".in-addr.arpa"))
  /\ (forall n, ip_address ip = Ok (IPv6Address n None) ->
        length (chars (hex032 n)) = 32
        /\ to_reverse ip
           = Ok (List.last (chars (hex032 n)) "",
                 join "." (rev (removelast (chars (hex032 n))))
                 +:+ ".ip6.arpa"))
  /\ (forall n scope_id, ip_address ip = Ok (IPv6Address n (Some scope_id)) ->
        to_reverse ip = Raise AddressValueError)
  /\ (parse_ipv4 ip = None -> parse_ipv6 ip = None ->
      to_reverse ip
      = Raise (ValueError
                 (repr ip +:+ " does not appear to be an IPv4 or IPv6 address"))).
Proof.
  split; [|split; [|split]].
  - intros n H. split; [apply parse_ipv4_written, ip_address_v4, H|].
    unfold to_reverse, _reverse_ip. rewrite H.
    change (Ok (IPv4Address n) ≫= ?k) with (k (IPv4Address n)). cbv beta iota.
    unfold str_ipv4.
    rewrite (split_on_join "." (map str_of_N (to_bytes4 n)));
      [| discriminate | apply to_bytes4_octets].
    apply (reverse_units (map str_of_N (to_bytes4 n)) "in-addr.arpa").
    simpl. lia.
  - intros n H.
    pose proof (parse_ipv6_bound _ _ _ (ip_address_v6 _ _ _ H)) as Hn.
    pose proof (hex032_length n Hn) as Hlen.
    rewrite chars_length. split; [exact Hlen|].
    unfold to_reverse, _reverse_ip. rewrite H.
    change (Ok (IPv6Address n None) ≫= ?k) with (k (IPv6Address n None)).
    cbv beta iota.
    destruct (exploded_digits n Hn) as (e & -> & He).
    change (Ok e ≫= ?k) with (k e). cbv beta.
    rewrite remove_char_rev, He, chars_rev.
    apply (reverse_units (chars (hex032 n)) "ip6.arpa").
    rewrite chars_length. lia.
  - intros n scope_id H. unfold to_reverse, _reverse_ip. rewrite H. reflexivity.
  - intros H4 H6. unfold to_reverse, _reverse_ip, ip_address.
    rewrite H4, H6. reflexivity.
Qed.

Lemma to_reverse_cases_witness :
  to_reverse "192.168.1.2" = Ok ("2", "1.168.192.in-addr.arpa")
  /\ to_reverse "2001:0db8:0:0::1428:57ab"
     = Ok ("b", "a.7.5.8.2.4.1.0.0.0.0.0.0.0.0.0.0.0.0.0.0.0.0.8.b.d.0.1.0.0.2.ip6.arpa")
  /\ to_reverse "2001:db8::1%eth0" = Raise AddressValueError
  /\ to_reverse "192.168.1"
     = Raise (ValueError "'192.168.1' does not appear to be an IPv4 or IPv6 address").
Proof.
  split; [|split; [|split]].
  - refine (eq_trans
              (proj2 (proj1 (to_reverse_cases "192.168.1.2") 3232235778%N _)) _);
      vm_compute; reflexivity.
  - refine (eq_trans
              (proj2 (proj1 (proj2 (to_reverse_cases "2001:0db8:0:0::1428:57ab"))
                        42540766411282592856903984951992014763%N _)) _);
      vm_compute; reflexivity.
  - apply (proj1 (proj2 (proj2 (to_reverse_cases "2001:db8::1%eth0")))
             42540766411282592856903984951653826561%N "eth0").
    vm_compute. reflexivity.
  - refine (eq_trans
              (proj2 (proj2 (proj2 (to_reverse_cases "192.168.1"))) _ _) _);
      vm_compute; reflexivity.
Defined.

(** [reverse_pointer] is the first component of [to_reverse], a dot, and
    the second component, and it raises what [to_reverse] raises. *)
Lemma reverse_pointer_to_reverse ip :
  reverse_pointer ip = (p ← to_reverse ip; Ok (p.1 +:+ "." +:+ p.2)).
Proof.
  unfold reverse_pointer, to_reverse.
  destruct (_reverse_ip ip) as [[a b]|e]; reflexivity.
Qed.

(** C4 (the code falls short of its docstring): the docstrings give
    2.1.1.168.192.in-addr.arpa for [reverse_pointer] of 192.168.1.2, and
    1.1.168.192.in-addr.arpa for the zone [to_reverse] returns; the code
    returns the four octets reversed, one label less. *)
Theorem reverse_pointer_docstring_example :
  reverse_pointer "192.168.1.2" = Ok "2.1.168.192.in-addr.arpa"
  /\ reverse_pointer "192.168.1.2" <> Ok "2.1.1.168.192.in-addr.arpa"
  /\ to_reverse "192.168.1.2" = Ok ("2", "1.168.192.in-addr.arpa")
  /\ to_reverse "192.168.1.2" <> Ok ("2", "1.1.168.192.in-addr.arpa").
Proof.
  repeat split; try (vm_compute; reflexivity); vm_compute; discriminate.
Qed.

(** ** Conflicts *)

Lemma filter_filter {A} (p q : A -> bool) l :
  List.filter q (List.filter p l) = List.filter (fun x => p x && q x) l.
Proof.
  induction l as [|x l IH]; [reflexivity|]. simpl.
  destruct (p x); simpl; [destruct (q x)|]; congruence.
Qed.

Lemma filter_ext' {A} (p q : A -> bool) l :
  (forall x, p x = q x) -> List.filter p l = List.filter q l.
Proof. intros H. induction l as [|x l IH]; simpl; [|rewrite H, IH]; reflexivity. Qed.

(** The rows [check_unique] is left with are the conflicting ones. *)
Lemma validate_for_conflicts_rows objects self :
  validate_for_conflicts objects self =
  match List.filter (conflicts_with self) objects with
  | [] => Ok tt
  | (_ :: _) as conflicting =>
      Raise (ValidationError
               (conflict_comment self
                +:+ join ", " (map (fun r => str_of_N (rec_id r)) conflicting)))
  end.
Proof.
  unfold validate_for_conflicts, check_unique, conflict_comment.
  unfold conflicts_with, own_row. simpl.
  destruct (String.eqb (f_type self) "CNAME"); simpl;
    destruct (get_record_pk self) as [pk|];
    rewrite ?filter_filter;
    match goal with
    | |- match List.filter ?p _ with _ => _ end
         = match List.filter ?q _ with _ => _ end =>
        rewrite (filter_ext' p q)
    end;
    try (intros r;
         repeat match goal with
                | |- context [String.eqb ?a ?b] => destruct (String.eqb a b)
                | |- context [N.eqb ?a ?b] => destruct (N.eqb a b)
                end; reflexivity);
    match goal with
    | |- match ?l with _ => _ end = _ => destruct l; reflexivity
    end.
Qed.

(** C1: [validate_for_conflicts] raises exactly when a stored record
    other than the object's own has the same name and either the object
    is a CNAME or that record is; the [ValidationError] lists the
    identifiers of these records; the rows with the object's own
    identifier can be left out of the table without changing the
    result. *)
Theorem validate_for_conflicts_spec objects self :
  (raises (validate_for_conflicts objects self) <->
   exists r, In r objects
             /\ rec_name r = f_name self
             /\ (f_type self = "CNAME" \/ rec_type r = "CNAME")
             /\ get_record_pk self <> Some (rec_id r))
  /\ (forall e, validate_for_conflicts objects self = Raise e ->
        e = ValidationError
              (conflict_comment self
               +:+ join ", " (map (fun r => str_of_N (rec_id r))
                                  (List.filter (conflicts_with self) objects))))
  /\ validate_for_conflicts
       (List.filter (fun r => negb (own_row self r)) objects) self
     = validate_for_conflicts objects self.
Proof.
  split; [|split].
  - rewrite validate_for_conflicts_rows. split.
    + intros [e He].
      destruct (List.filter (conflicts_with self) objects) as [|r l] eqn:E;
        [discriminate|].
      assert (Hr : In r (List.filter (conflicts_with self) objects))
        by (rewrite E; left; reflexivity).
      apply filter_In in Hr as [Hin Hc]. exists r. split; [exact Hin|].
      unfold conflicts_with, own_row in Hc.
      apply andb_true_iff in Hc as [Hc Hown].
      apply andb_true_iff in Hc as [Hname Htype].
      apply String.eqb_eq in Hname. apply orb_true_iff in Htype.
      rewrite !String.eqb_eq in Htype. repeat split; auto.
      intros Hpk. rewrite Hpk, N.eqb_refl in Hown. discriminate.
    + intros (r & Hin & Hname & Htype & Hpk).
      assert (Hr : In r (List.filter (conflicts_with self) objects)).
      { apply filter_In. split; [exact Hin|].
        unfold conflicts_with, own_row. rewrite Hname, String.eqb_refl.
        assert (String.eqb (f_type self) "CNAME"
                || String.eqb (rec_type r) "CNAME" = true) as ->.
        { apply orb_true_iff. rewrite !String.eqb_eq. exact Htype. }
        simpl. destruct (get_record_pk self) as [pk|]; [|reflexivity].
        apply negb_true_iff, N.eqb_neq. congruence. }
      destruct (List.filter (conflicts_with self) objects); [destruct Hr|].
      eexists. reflexivity.
  - intros e He. rewrite validate_for_conflicts_rows in He.
    destruct (List.filter (conflicts_with self) objects); congruence.
  - rewrite !validate_for_conflicts_rows, filter_filter.
    rewrite (filter_ext' _ (conflicts_with self)); [reflexivity|].
    intros r. unfold conflicts_with.
    destruct (own_row self r); rewrite ?andb_false_r; reflexivity.
Qed.

Lemma validate_for_conflicts_spec_witness :
  validate_for_conflicts
    [mk_db_record 1 "CNAME" "x"; mk_db_record 2 "A" "x"]
    (mk_record_like (Some 1%N) "CNAME" "x" "y")
  = Raise (ValidationError
      "Cannot create CNAME record. Following conflicting records exist: 2").
Proof.
  assert (Hr : raises (validate_for_conflicts
                         [mk_db_record 1 "CNAME" "x"; mk_db_record 2 "A" "x"]
                         (mk_record_like (Some 1%N) "CNAME" "x" "y"))).
  { apply (proj2 (proj1 (validate_for_conflicts_spec _ _))).
    exists (mk_db_record 2 "A" "x"). simpl.
    repeat split; auto; discriminate. }
  unfold raises in Hr. destruct Hr as [e He]. rewrite He.
  rewrite (proj1 (proj2 (validate_for_conflicts_spec _ _)) e He).
  reflexivity.
Defined.

(** The examples of the specification: an A record beside a CNAME of its
    name conflicts; the stored CNAME itself, updated, does not. *)
Lemma validate_for_conflicts_examples :
  raises (validate_for_conflicts [mk_db_record 7 "CNAME" "x"]
            (mk_record_like None "A" "x" "192.0.2.1"))
  /\ validate_for_conflicts [mk_db_record 7 "CNAME" "x"]
       (mk_record_like (Some 7%N) "CNAME" "x" "example.com") = Ok tt.
Proof. split; [eexists|]; reflexivity. Qed.

(** ** Content validation and the clean sequence *)

Lemma str_in_In x t : str_in x t = true <-> In x t.
Proof.
  unfold str_in. rewrite existsb_exists. split.
  - intros (y & Hy & E). apply String.eqb_eq in E. subst. exact Hy.
  - intros H. exists x. split; [exact H | apply String.eqb_refl].
Qed.

Lemma validate_name_equal_to_content_ok name content :
  validate_name_equal_to_content name content = Ok tt <-> name <> content.
Proof.
  unfold validate_name_equal_to_content.
  destruct (String.eqb_spec name content); split; intros H;
    congruence || discriminate || reflexivity.
Qed.

(** On the types of [DOMAIN_NAME_RECORDS], none of which is A, AAAA or
    SOA, the content is checked as a domain name and then against the
    name. *)
Lemma clean_content_field_domain_name v4 v6 self :
  In (f_type self) DOMAIN_NAME_RECORDS ->
  clean_content_field v4 v6 self
  = (validate_domain_name (f_content self);;
     validate_name_equal_to_content (f_name self) (f_content self)).
Proof.
  intros H. unfold clean_content_field, get_field.
  assert (Hin : str_in (f_type self) DOMAIN_NAME_RECORDS = true)
    by (apply str_in_In, H).
  rewrite Hin. simpl in H.
  destruct H as [<-|[<-|[<-|[<-|[<-|[]]]]]]; reflexivity.
Qed.

(** C7 (the code falls short of the claim): a CNAME record whose content
    is a domain name followed by a newline passes the content check,
    though this content is no name of the grammar. *)
Theorem clean_content_field_trailing_newline v4 v6 :
  clean_content_field v4 v6
    (mk_record_like None "CNAME" "www.example.com"
       ("example.com" +:+ String nl "")) = Ok tt
  /\ ~ domain_name_grammar ("example.com" +:+ String nl "").
Proof.
  split; [reflexivity|].
  rewrite domain_name_grammar_dec. vm_compute. discriminate.
Qed.

(** X22: what [clean_content_field] does for the types of domain names
    and for the types it does not know. For CNAME, MX, NAPTR, NS and PTR
    it passes exactly when the content is a name of the grammar, or such
    a name followed by one newline, and differs from the name of the
    record; it raises one of two validation errors otherwise, and always
    when name and content are equal. For a type outside A, AAAA, SOA and
    those five, nothing is checked and nothing is raised. *)
Theorem clean_content_field_cases v4 v6 self :
  (In (f_type self) ["CNAME"; "MX"; "NAPTR"; "NS"; "PTR"] ->
   (clean_content_field v4 v6 self = Ok tt <->
    (domain_name_grammar (f_content self)
     \/ exists t, f_content self = t +:+ String nl ""
                  /\ domain_name_grammar t)
    /\ f_name self <> f_content self)
   /\ (forall e, clean_content_field v4 v6 self = Raise e ->
         e = ValidationError "Enter a valid value."
         \/ e = ValidationError
                  "Cannot create record with the same name and content")
   /\ (f_name self = f_content self ->
       exists msg, clean_content_field v4 v6 self = Raise (ValidationError msg)))
  /\ (~ In (f_type self)
          ["A"; "AAAA"; "SOA"; "CNAME"; "MX"; "NAPTR"; "NS"; "PTR"] ->
      clean_content_field v4 v6 self = Ok tt).
Proof.
  split.
  - intros Hin. rewrite (clean_content_field_domain_name v4 v6 self Hin).
    split; [|split].
    + rewrite <- validate_domain_name_accepts,
        <- validate_name_equal_to_content_ok.
      destruct (validate_domain_name (f_content self)) as [[]|e]; simpl.
      * split; [auto | intros [_ H]; exact H].
      * split; [discriminate | intros [H _]; discriminate].
    + intros e.
      destruct (RegexValidator_cases domain_name_re (f_content self))
        as [Hv|Hv]; unfold validate_domain_name; rewrite Hv; simpl.
      * unfold validate_name_equal_to_content.
        destruct (String.eqb _ _); [|discriminate].
        intros H. injection H as <-. auto.
      * intros H. injection H as <-. auto.
    + intros Heq.
      destruct (RegexValidator_cases domain_name_re (f_content self))
        as [Hv|Hv]; unfold validate_domain_name; rewrite Hv; simpl.
      * unfold validate_name_equal_to_content.
        rewrite Heq, String.eqb_refl. eexists. reflexivity.
      * eexists. reflexivity.
  - intros Hout. unfold clean_content_field, get_field.
    destruct (String.eqb_spec (f_type self) "A") as [E|_].
    { exfalso. apply Hout. rewrite E. simpl. auto. }
    destruct (String.eqb_spec (f_type self) "AAAA") as [E|_].
    { exfalso. apply Hout. rewrite E. simpl. auto. }
    destruct (String.eqb_spec (f_type self) "SOA") as [E|_].
    { exfalso. apply Hout. rewrite E. simpl. auto. }
    destruct (str_in (f_type self) DOMAIN_NAME_RECORDS) eqn:E; [|reflexivity].
    exfalso. apply Hout. apply str_in_In in E. simpl in E. simpl. tauto.
Qed.

Lemma clean_content_field_cases_witness :
  (exists msg,
     clean_content_field ipaddress_validate_ipv4 ipaddress_validate_ipv6
       (mk_record_like None "NS" "example.com" "example.com")
     = Raise (ValidationError msg))
  /\ clean_content_field ipaddress_validate_ipv4 ipaddress_validate_ipv6
       (mk_record_like None "MX" "example.com" "mail.example.com")
     = Ok tt
  /\ clean_content_field ipaddress_validate_ipv4 ipaddress_validate_ipv6
       (mk_record_like None "TXT" "example.com" "any text.")
     = Ok tt.
Proof.
  split; [|split].
  - apply (proj1 (clean_content_field_cases
                    ipaddress_validate_ipv4 ipaddress_validate_ipv6
                    (mk_record_like None "NS" "example.com" "example.com"))).
    + simpl. auto.
    + reflexivity.
  - apply (proj1 (clean_content_field_cases
                    ipaddress_validate_ipv4 ipaddress_validate_ipv6
                    (mk_record_like None "MX" "example.com" "mail.example.com"))).
    + simpl. auto.
    + split; [|discriminate]. left.
      apply domain_name_grammar_dec. vm_compute. reflexivity.
  - apply (proj2 (clean_content_field_cases
                    ipaddress_validate_ipv4 ipaddress_validate_ipv6
                    (mk_record_like None "TXT" "example.com" "any text."))).
    simpl. intros H. repeat destruct H as [H|H]; try discriminate H. exact H.
Defined.

(** What [force_case] leaves of each field. *)
Lemma force_case_fields self self' :
  force_case self = Ok self' ->
  f_name self' = lower (f_name self)
  /\ upper (f_type self) = Some (f_type self')
  /\ f_content self' = f_content self
  /\ get_record_pk self' = get_record_pk self.
Proof.
  unfold force_case, truthy. simpl.
  destruct (String.eqb_spec (f_name self) "") as [En|_]; simpl;
    destruct (String.eqb_spec (f_type self) "") as [Et|_]; simpl;
    try (destruct (upper (f_type self)) as [t|] eqn:Eu; [|discriminate]);
    intros H; injection H as <-; simpl; rewrite ?En, ?Et;
    repeat split; reflexivity.
Qed.

(** C2 (the code falls short of the claim): [clean] checks the content
    before it normalises the case. A record whose name and content
    differ in case only passes [clean] and is left with name and content
    equal, which [validate_name_equal_to_content] is there to refuse and
    refuses when the case is normalised first; and a record whose type is
    written in small letters passes [clean] with a content that the
    check of its type, once in capitals, refuses. *)
Theorem clean_checks_before_case v4 v6 :
  clean v4 v6 [] (mk_record_like None "NS" "Example.com" "example.com")
  = Ok (mk_record_like None "NS" "example.com" "example.com")
  /\ clean_normalized_first v4 v6 []
       (mk_record_like None "NS" "Example.com" "example.com")
     = Raise (ValidationError
                "Cannot create record with the same name and content")
  /\ clean v4 v6 [] (mk_record_like None "cname" "x" "not a name!")
     = Ok (mk_record_like None "CNAME" "x" "not a name!")
  /\ clean_content_field v4 v6 (mk_record_like None "CNAME" "x" "not a name!")
     = Raise (ValidationError "Enter a valid value.").
Proof. repeat split; reflexivity. Qed.

(** ** Differences of flat dictionaries *)

Section FlatDictDiff.
Context {V : Type}.
Implicit Types old_dict new_dict : gmap string V.

(** The loop invariant: after the keys [X], the result holds the pairs of
    exactly these keys. *)
Lemma flat_dict_diff_zip old_dict new_dict :
  flat_dict_diff old_dict new_dict
  = Ok (map_zip_with _fmt old_dict new_dict).
Proof.
  unfold flat_dict_diff.
  set (f := fun (key : string) (acc : result (gmap string (gmap string V))) =>
              diff_result ← acc; old ← getitem old_dict key;
              new ← getitem new_dict key;
              Ok (<[key:=_fmt old new]> diff_result)).
  set (P := fun (r : result (gmap string (gmap string V))) (X : gset string) =>
              X ⊆ dom old_dict ∩ dom new_dict ->
              exists diff,
                r = Ok diff
                /\ forall k, diff !! k
                             = if decide (k ∈ X)
                               then map_zip_with _fmt old_dict new_dict !! k
                               else None).
  assert (H0 : P (Ok ∅) ∅).
  { intros _. exists ∅. split; [reflexivity|]. intros k.
    rewrite lookup_empty. destruct (decide (k ∈ (∅ : gset string)));
      [set_solver|reflexivity]. }
  assert (Hstep : forall x (Y : gset string) r,
             x ∉ Y -> P r Y -> P (f x r) ({[x]} ∪ Y)).
  { intros x Y r Hx IH Hsub.
    assert (Hxin : x ∈ dom old_dict ∩ dom new_dict)
      by (apply Hsub, elem_of_union_l, elem_of_singleton; reflexivity).
    destruct IH as (diff & -> & Hdiff).
    { intros y Hy. apply Hsub, elem_of_union_r, Hy. }
    apply elem_of_intersection in Hxin as [Ho Hn].
    apply elem_of_dom in Ho as [o Ho]. apply elem_of_dom in Hn as [n Hn].
    exists (<[x:=_fmt o n]> diff). split.
    - unfold f, getitem. simpl. rewrite Ho, Hn. reflexivity.
    - intros k. destruct (decide (x = k)) as [<-|Hne].
      + rewrite lookup_insert_eq, map_lookup_zip_with, Ho, Hn.
        destruct (decide (x ∈ {[x]} ∪ Y)) as [|Hn']; [reflexivity|].
        exfalso. apply Hn', elem_of_union_l, elem_of_singleton. reflexivity.
      + rewrite lookup_insert_ne, Hdiff by exact Hne.
        destruct (decide (k ∈ Y)) as [HY|HY],
                 (decide (k ∈ {[x]} ∪ Y)) as [HU|HU]; try reflexivity.
        * exfalso. apply HU, elem_of_union_r, HY.
        * exfalso. apply elem_of_union in HU as [HU|HU]; [|auto].
          apply elem_of_singleton in HU. congruence. }
  destruct (set_fold_ind_L P f (Ok ∅) H0 Hstep (dom old_dict ∩ dom new_dict))
    as (diff & -> & Hdiff); [reflexivity|].
  f_equal. apply map_eq. intros k. rewrite Hdiff.
  destruct (decide (k ∈ dom old_dict ∩ dom new_dict)) as [|Hk]; [reflexivity|].
  symmetry. apply not_elem_of_dom. rewrite dom_map_zip_with_L. exact Hk.
Qed.

(** C10: [flat_dict_diff] returns a dictionary whose keys are exactly the
    keys the two have in common; a common key is mapped to the dictionary
    of the old and the new value, whether they differ or not; a key of
    one of the two only is absent. *)
Theorem flat_dict_diff_spec old_dict new_dict :
  exists diff_result,
    flat_dict_diff old_dict new_dict = Ok diff_result
    /\ dom diff_result = dom old_dict ∩ dom new_dict
    /\ (forall key old new,
          old_dict !! key = Some old -> new_dict !! key = Some new ->
          exists pair,
            diff_result !! key = Some pair
            /\ dom pair = {["old"; "new"]}
            /\ pair !! "old" = Some old /\ pair !! "new" = Some new)
    /\ (forall key,
          old_dict !! key = None \/ new_dict !! key = None ->
          diff_result !! key = None).
Proof.
  exists (map_zip_with _fmt old_dict new_dict).
  split; [apply flat_dict_diff_zip|]. split; [apply dom_map_zip_with_L|]. split.
  - intros key old new Ho Hn. exists (_fmt old new).
    rewrite map_lookup_zip_with, Ho, Hn. split; [reflexivity|].
    unfold _fmt. split; [|split].
    + rewrite !dom_insert_L, dom_empty_L. set_solver.
    + apply lookup_insert_eq.
    + rewrite lookup_insert_ne by discriminate. apply lookup_insert_eq.
  - intros key H. rewrite map_lookup_zip_with.
    destruct H as [-> | ->]; [reflexivity|].
    destruct (old_dict !! key); reflexivity.
Qed.

End FlatDictDiff.

Lemma flat_dict_diff_spec_witness :
  exists diff_result,
    flat_dict_diff (<["name" := "a"]> (<["ttl" := "60"]> ∅))
                   (<["name" := "a"]> (<["prio" := "10"]> ∅))
    = Ok diff_result
    /\ (exists pair, diff_result !! "name" = Some pair
                     /\ pair !! "old" = Some "a" /\ pair !! "new" = Some "a")
    /\ diff_result !! "ttl" = None
    /\ diff_result !! "prio" = None.
Proof.
  destruct (flat_dict_diff_spec
              (<["name" := "a"]> (<["ttl" := "60"]> ∅) : gmap string string)
              (<["name" := "a"]> (<["prio" := "10"]> ∅)))
    as (diff & Hdiff & _ & Hcommon & Honly).
  exists diff. split; [exact Hdiff|]. split; [|split].
  - destruct (Hcommon "name" "a" "a") as (pair & Hp & _ & Hold & Hnew);
      [reflexivity | reflexivity |].
    exists pair. auto.
  - apply Honly. right. reflexivity.
  - apply Honly. left. reflexivity.
Defined.

(** ** The domain of a record name *)

Lemma split_on_app_sep sep a b :
  split_on sep (a +:+ String sep b) = split_on sep a ++ split_on sep b.
Proof.
  induction a as [|c a IH]; str_simpl.
  - rewrite Ascii.eqb_refl. reflexivity.
  - destruct (Ascii.eqb c sep); rewrite IH; [reflexivity|].
    pose proof (split_on_nonempty sep a).
    destruct (split_on sep a); [congruence | reflexivity].
Qed.

Lemma join_app sep (a b : list string) :
  a <> [] -> b <> [] -> join sep (a ++ b) = join sep a +:+ sep +:+ join sep b.
Proof.
  intros Ha Hb. induction a as [|x a IH]; [congruence|].
  destruct a as [|x' a].
  - destruct b; [congruence | reflexivity].
  - change ((x :: x' :: a) ++ b) with (x :: x' :: (a ++ b)).
    rewrite !join_cons. change (x' :: a ++ b) with ((x' :: a) ++ b).
    rewrite IH by discriminate. rewrite !append_assoc. reflexivity.
Qed.

Lemma partial_domains_In chunks s :
  In s (partial_domains chunks) <->
  exists i, i < length chunks /\ s = join "." (skipn i chunks).
Proof.
  unfold partial_domains. rewrite in_map_iff. split.
  - intros (i & <- & Hi). apply in_seq in Hi. exists i. split; [lia|reflexivity].
  - intros (i & Hi & ->). exists i. split; [reflexivity|]. apply in_seq. lia.
Qed.

(** The names the lookup searches for are the suffixes of the record
    name at its dots, and the name itself. *)
Lemma partial_domains_suffixes record_name s :
  In s (partial_domains (split_on "." record_name)) <->
  label_suffix record_name s.
Proof.
  rewrite partial_domains_In. unfold label_suffix. split.
  - intros (i & Hi & ->). destruct i as [|i].
    + left. apply join_split.
    + right. exists (join "." (firstn (S i) (split_on "." record_name))).
      rewrite <- (join_split "." record_name) at 1.
      rewrite <- (firstn_skipn (S i) (split_on "." record_name)) at 1.
      apply join_app.
      * intros E.
        assert (El : length (firstn (S i) (split_on "." record_name)) = 0)
          by (rewrite E; reflexivity).
        rewrite length_firstn in El. lia.
      * intros E.
        assert (El : length (skipn (S i) (split_on "." record_name)) = 0)
          by (rewrite E; reflexivity).
        rewrite length_skipn in El. lia.
  - intros [-> | (dropped & ->)].
    + exists 0. split; [|symmetry; apply join_split].
      pose proof (split_on_nonempty "." record_name).
      destruct (split_on "." record_name); [congruence | simpl; lia].
    + exists (length (split_on "." dropped)).
      change ("." +:+ s) with (String "." s).
      rewrite split_on_app_sep, length_app, skipn_app, Nat.sub_diag.
      rewrite skipn_all, app_nil_l. simpl. split; [|symmetry; apply join_split].
      pose proof (split_on_nonempty "." s).
      destruct (split_on "." s); [congruence | simpl; lia].
Qed.

Lemma insert_desc_In {A} (key : A -> nat) x l y :
  In y (insert_desc key x l) <-> y = x \/ In y l.
Proof.
  induction l as [|z l IH]; simpl; [intuition|].
  destruct (key z <=? key x)%nat; simpl; [intuition|].
  rewrite IH. intuition.
Qed.

Lemma sorted_desc_In {A} (key : A -> nat) l y :
  In y (sorted_desc key l) <-> In y l.
Proof.
  induction l as [|x l IH]; simpl; [reflexivity|].
  rewrite insert_desc_In, IH. intuition.
Qed.

Lemma insert_desc_head {A} (key : A -> nat) x l :
  head_is_max key l -> head_is_max key (insert_desc key x l).
Proof.
  intros Hl d rest E y Hy. apply insert_desc_In in Hy.
  destruct l as [|z l]; simpl in E.
  - injection E as <- <-. destruct Hy as [->|[]]. lia.
  - destruct (Nat.leb_spec (key z) (key x)) as [Hle|Hlt].
    + injection E as <- <-. destruct Hy as [->|Hy]; [lia|].
      specialize (Hl z l eq_refl y Hy). lia.
    + injection E as <- <-. destruct Hy as [->|Hy]; [lia|].
      apply (Hl z l eq_refl y Hy).
Qed.

Lemma sorted_desc_head {A} (key : A -> nat) l :
  head_is_max key (sorted_desc key l).
Proof.
  induction l as [|x l IH]; simpl.
  - intros d rest E. discriminate.
  - apply insert_desc_head, IH.
Qed.

(** C8: the lookup considers exactly the suffixes of the record name at
    its dots, the name itself included; a domain it returns is a
    registered domain named as one of them, and none of those has a
    longer name; it returns nothing exactly when no registered domain is
    named as one of them. *)
Theorem find_domain_for_record_spec objects record_name :
  (forall s, In s (partial_domains (split_on "." record_name)) <->
             label_suffix record_name s)
  /\ (forall d, find_domain_for_record objects record_name = Some d ->
        In d objects
        /\ label_suffix record_name (dom_name d)
        /\ forall d', In d' objects ->
                      label_suffix record_name (dom_name d') ->
                      String.length (dom_name d') <= String.length (dom_name d))
  /\ (find_domain_for_record objects record_name = None <->
      forall d, In d objects -> ~ label_suffix record_name (dom_name d)).
Proof.
  split; [apply partial_domains_suffixes|].
  unfold find_domain_for_record.
  set (matching := List.filter
         (fun d => str_in (dom_name d)
                     (partial_domains (split_on "." record_name))) objects).
  assert (Hmatch : forall d, In d matching <->
             In d objects /\ label_suffix record_name (dom_name d)).
  { intros d. unfold matching.
    rewrite filter_In, str_in_In, partial_domains_suffixes. reflexivity. }
  pose proof (sorted_desc_head (fun d => String.length (dom_name d)) matching)
    as Hhead.
  pose proof (sorted_desc_In (fun d => String.length (dom_name d)) matching)
    as Hin.
  destruct (sorted_desc (fun d => String.length (dom_name d)) matching)
    as [|d0 rest].
  - split; [discriminate|]. split; [|reflexivity].
    intros _ d Hd Hs. apply (Hin d), Hmatch. auto.
  - split.
    + intros d E. injection E as <-.
      assert (Hd0 : In d0 matching) by (apply Hin; left; reflexivity).
      apply Hmatch in Hd0 as [Hobj Hsuf]. repeat split; auto.
      intros d' Hobj' Hsuf'.
      apply (Hhead d0 rest eq_refl d'), Hin, Hmatch. auto.
    + split; [discriminate|]. intros Hnone. exfalso.
      assert (Hd0 : In d0 matching) by (apply Hin; left; reflexivity).
      apply Hmatch in Hd0 as [Hobj Hsuf]. exact (Hnone d0 Hobj Hsuf).
Qed.

Lemma find_domain_for_record_spec_witness :
  find_domain_for_record
    [mk_domain 1 "10.in-addr.arpa"; mk_domain 2 "20.10.in-addr.arpa"]
    "30.20.10.in-addr.arpa"
  = Some (mk_domain 2 "20.10.in-addr.arpa")
  /\ label_suffix "30.20.10.in-addr.arpa" "20.10.in-addr.arpa"
  /\ find_domain_for_record
       [mk_domain 1 "10.in-addr.arpa"; mk_domain 2 "20.10.in-addr.arpa"]
       "www.example.com"
     = None.
Proof.
  split; [reflexivity|]. split.
  - apply (proj1 (proj2 (find_domain_for_record_spec
             [mk_domain 1 "10.in-addr.arpa"; mk_domain 2 "20.10.in-addr.arpa"]
             "30.20.10.in-addr.arpa")) (mk_domain 2 "20.10.in-addr.arpa")).
    reflexivity.
  - apply (proj2 (proj2 (find_domain_for_record_spec
             [mk_domain 1 "10.in-addr.arpa"; mk_domain 2 "20.10.in-addr.arpa"]
             "www.example.com"))).
    intros d Hd Hs.
    apply (proj1 (find_domain_for_record_spec [] "www.example.com")) in Hs.
    simpl in Hd. destruct Hd as [<-|[<-|[]]]; simpl in Hs;
      repeat destruct Hs as [Hs|Hs]; try discriminate Hs; exact Hs.
Defined.

(** ** Recursive formatting *)

Lemma format_go_text arguments t rest :
  str_all plain_char t = true ->
  format_go arguments None (t +:+ rest)
  = (r ← format_go arguments None rest; Ok (t +:+ r)).
Proof.
  induction t as [|c t IH]; intros H; str_simpl.
  - destruct (format_go arguments None rest); reflexivity.
  - apply andb_true_iff in H as [Hc Ht].
    unfold plain_char in Hc. simpl in Hc.
    apply negb_true_iff, orb_false_iff in Hc as [Hc1 Hc2].
    apply orb_false_iff in Hc2 as [Hc2 _].
    rewrite Hc1, Hc2, (IH Ht).
    destruct (format_go arguments None rest); reflexivity.
Qed.






Lemma get_integer_from_none s :
  forall accumulator,
    get_integer_from accumulator s = Ok None -> str_all is_digit s = false.
Proof.
  induction s as [|c s IH]; intros a; [discriminate|].
  cbn [get_integer_from str_all].
  destruct (is_digit c); [|reflexivity]. simpl.
  destruct (_ <? _)%N; [discriminate|]. apply IH.
Qed.





Lemma value_ind' (P : value -> Prop) :
  (forall s, P (VStr s)) ->
  (forall items, Forall (fun it => P it.2) items -> P (VDict items)) ->
  (forall elems, Forall P elems -> P (VList elems)) ->
  (forall elems, Forall P elems -> P (VTuple elems)) ->
  (forall a, P (VAtom a)) ->
  forall v, P v.
Proof.
  intros Hs Hd Hl Ht Ha. fix IH 1. intros [s|items|elems|elems|a].
  - apply Hs.
  - apply Hd. induction items as [|[k v] items IHi]; constructor;
      [apply IH | apply IHi].
  - apply Hl. induction elems as [|v elems IHe]; constructor;
      [apply IH | apply IHe].
  - apply Ht. induction elems as [|v elems IHe]; constructor;
      [apply IH | apply IHe].
  - apply Ha.
Qed.

Lemma format_recursive_dict items arguments :
  format_recursive (VDict items) arguments
  = (items' ← map_result
                (fun it => v' ← format_recursive it.2 arguments;
                           Ok (it.1, v')) items;
     Ok (VDict items')).
Proof.
  cbn [format_recursive]. f_equal.
  induction items as [|[k v] items IH]; [reflexivity|].
  cbn [map_result]. simpl. rewrite IH.
  destruct (format_recursive v arguments); reflexivity.
Qed.

Lemma format_recursive_list elems arguments :
  format_recursive (VList elems) arguments
  = (elems' ← map_result (fun v => format_recursive v arguments) elems;
     Ok (VList elems')).
Proof.
  cbn [format_recursive]. f_equal.
  induction elems as [|v elems IH]; [reflexivity|].
  cbn [map_result]. rewrite IH. reflexivity.
Qed.

Lemma map_result_Forall2 {A B} (f : A -> result B) l l' :
  map_result f l = Ok l' <-> Forall2 (fun x y => f x = Ok y) l l'.
Proof.
  revert l'. induction l as [|x l IH]; intros l'; simpl.
  - split; [intros [= <-]; constructor | intros H; inversion H; reflexivity].
  - split.
    + intros H. destruct (f x) as [y|] eqn:Ex; [|discriminate]. simpl in H.
      destruct (map_result f l) as [ys|] eqn:El; [|discriminate].
      simpl in H. injection H as <-. constructor; [exact Ex | apply IH; reflexivity].
    + intros H. inversion H as [|? y ? ys Hy Hys]; subst.
      rewrite Hy. simpl. apply IH in Hys. rewrite Hys. reflexivity.
Qed.




(* ===================================================================== *)
(** * Further properties of the module *)
(* ===================================================================== *)

(** ** What the simple validators accept *)

Lemma search_anchored_fullmatch r s :
  Re.search_anchored r s = true <->
  Re.fullmatch r s = true
  \/ exists t, s = t +:+ String nl "" /\ Re.fullmatch r t = true.
Proof.
  rewrite search_anchored_spec, fullmatch_spec. split; intros [H|(t & E & H)];
    auto; right; exists t; split; auto; apply fullmatch_spec; auto.
Qed.

(** X1: [validate_time] accepts exactly the strings of one or more
    digits, and each of them followed by one newline; the empty string is
    refused. *)
Theorem validate_time_accepts s :
  validate_time s = Ok tt <->
  digits_only s = true
  \/ exists t, s = t +:+ String nl "" /\ digits_only t = true.
Proof.
  unfold validate_time. rewrite RegexValidator_ok, search_anchored_fullmatch.
  rewrite fullmatch_time. split; intros [H|(t & E & H)]; auto; right;
    exists t; split; auto; rewrite fullmatch_time in *; auto.
Qed.

(** X2: [validate_dn_optional_dot] accepts exactly the strings over
    letters, digits, dots and hyphens, the empty string among them, and
    each of them followed by one newline. *)
Theorem validate_dn_optional_dot_accepts s :
  validate_dn_optional_dot s = Ok tt <->
  optionally_dotted_name s = true
  \/ exists t, s = t +:+ String nl "" /\ optionally_dotted_name t = true.
Proof.
  unfold validate_dn_optional_dot.
  rewrite RegexValidator_ok, search_anchored_fullmatch.
  rewrite fullmatch_dn_optional_dot. split; intros [H|(t & E & H)]; auto;
    right; exists t; split; auto; rewrite fullmatch_dn_optional_dot in *; auto.
Qed.

(** ** What [validate_domain_name] never accepts *)

Lemma append_last_inj a b (c d : ascii) :
  a +:+ String c "" = b +:+ String d "" -> a = b /\ c = d.
Proof.
  revert b. induction a as [|x a IH]; intros [|y b] H; str_simpl.
  - injection H as ->. auto.
  - injection H as -> H. destruct b; discriminate.
  - injection H as -> H. destruct a; discriminate.
  - injection H as -> H. apply IH in H as [-> ->]. auto.
Qed.

Lemma nonempty_last (s : string) :
  s <> "" -> exists s' c, s = s' +:+ String c "".
Proof.
  induction s as [|x s IH]; [congruence|]. intros _.
  destruct s as [|y s].
  - exists "", x. reflexivity.
  - destruct IH as (s' & c & E); [discriminate|].
    exists (String x s'), c. rewrite E. reflexivity.
Qed.

(** A name of the grammar ends in a letter or a digit. *)
Lemma domain_name_grammar_last s :
  domain_name_grammar s ->
  exists s' c, s = s' +:+ String c "" /\ is_alnum c = true.
Proof.
  intros (wildcard & labels & last & -> & _ & Hne & Hall).
  destruct (nonempty_last last Hne) as (l' & c & ->).
  exists ((if wildcard then "*." else "") +:+ dotted labels +:+ l'), c.
  split; [rewrite !append_assoc; reflexivity|].
  rewrite str_all_app in Hall. apply andb_true_iff in Hall as [_ Hc].
  simpl in Hc. rewrite andb_true_r in Hc. exact Hc.
Qed.

(** X3: [validate_domain_name] refuses every string that ends with a
    period, which is what the validator is there to catch, and also every
    such string followed by a newline. *)
Theorem validate_domain_name_trailing_dot s :
  validate_domain_name (s +:+ ".")
  = Raise (ValidationError "Enter a valid value.")
  /\ validate_domain_name (s +:+ "." +:+ String nl "")
     = Raise (ValidationError "Enter a valid value.").
Proof.
  assert (Hdot : ~ domain_name_grammar (s +:+ ".")).
  { intros H. apply domain_name_grammar_last in H as (s' & c & E & Hc).
    apply append_last_inj in E as [_ <-]. discriminate. }
  split.
  - destruct (RegexValidator_cases domain_name_re (s +:+ ".")) as [H|H];
      [|exact H].
    apply validate_domain_name_accepts in H as [H|(t & E & H)];
      [contradiction|].
    apply append_last_inj in E as [_ E]. discriminate.
  - destruct (RegexValidator_cases domain_name_re (s +:+ "." +:+ String nl ""))
      as [H|H]; [|exact H].
    apply validate_domain_name_accepts in H as [H|(t & E & H)].
    + apply domain_name_grammar_last in H as (s' & c & E & Hc).
      rewrite <- append_assoc in E.
      apply append_last_inj in E as [_ <-]. discriminate.
    + rewrite <- append_assoc in E. apply append_last_inj in E as [<- _].
      contradiction.
Qed.

Lemma str_mem_dotted c labels :
  Forall (nonempty_all is_label_char) labels -> is_label_char c = false ->
  Ascii.eqb c "." = false -> str_mem c (dotted labels) = false.
Proof.
  intros Hl Hc Hd. induction Hl as [|l labels [_ Hl] _ IH]; [reflexivity|].
  simpl. rewrite !str_mem_app, IH. simpl. rewrite Hd.
  assert (str_mem c l = false) as ->; [|reflexivity].
  clear -Hl Hc. induction l as [|x l IH]; [reflexivity|]. simpl in *.
  apply andb_true_iff in Hl as [Hx Hl]. rewrite (IH Hl), orb_false_r.
  destruct (Ascii.eqb_spec c x) as [->|]; [congruence | reflexivity].
Qed.

Lemma str_mem_all c p s :
  str_all p s = true -> p c = false -> str_mem c s = false.
Proof.
  induction s as [|x s IH]; [reflexivity|]. simpl. intros H Hc.
  apply andb_true_iff in H as [Hx Hs]. rewrite (IH Hs Hc), orb_false_r.
  destruct (Ascii.eqb_spec c x) as [->|]; [congruence | reflexivity].
Qed.

(** X4: an asterisk is accepted by [validate_domain_name] as the whole
    first label only: an accepted string that holds an asterisk starts
    with an asterisk and a period, and holds no other asterisk. *)
Theorem validate_domain_name_wildcard s :
  validate_domain_name s = Ok tt -> str_mem "*" s = true ->
  exists rest, s = "*." +:+ rest /\ str_mem "*" rest = false.
Proof.
  intros Hok Hstar.
  assert (Hg : forall t, domain_name_grammar t -> str_mem "*" t = true ->
             exists rest, t = "*." +:+ rest
                          /\ str_mem "*" rest = false
                          /\ str_mem "*" (rest +:+ String nl "") = false).
  { intros t (wildcard & labels & last & -> & Hl & _ & Hlast) Ht.
    assert (Hrest : str_mem "*" (dotted labels +:+ last) = false).
    { rewrite str_mem_app, (str_mem_dotted "*" labels Hl) by reflexivity.
      rewrite (str_mem_all "*" is_alnum last Hlast) by reflexivity.
      reflexivity. }
    destruct wildcard.
    - exists (dotted labels +:+ last). split; [reflexivity|].
      split; [exact Hrest|]. rewrite str_mem_app, Hrest. reflexivity.
    - rewrite append_nil_l, Hrest in Ht. discriminate. }
  apply validate_domain_name_accepts in Hok as [H|(t & -> & H)].
  - destruct (Hg s H Hstar) as (rest & E & Hr & _). eauto.
  - rewrite str_mem_app in Hstar. simpl in Hstar. rewrite orb_false_r in Hstar.
    destruct (Hg t H Hstar) as (rest & -> & _ & Hr).
    exists (rest +:+ String nl ""). rewrite append_assoc. auto.
Qed.

Lemma validate_domain_name_wildcard_witness :
  exists rest, "*.example.com" = "*." +:+ rest /\ str_mem "*" rest = false.
Proof.
  apply (validate_domain_name_wildcard "*.example.com"); reflexivity.
Defined.

(** ** Reverse pointers: errors, shape and injectivity *)

(** The units of an address in their written order: the four octets in
    decimal, or the 32 hexadecimal digits; an address with a scope
    identifier has no exploded form. *)
Lemma reverse_ip_cases ip :
  match ip_address ip with
  | Ok (IPv4Address n) =>
      _reverse_ip ip
      = Ok (List.last (map str_of_N (to_bytes4 n)) "",
            join "." (rev (removelast (map str_of_N (to_bytes4 n))))
            +:+ "." +:+ "in-addr.arpa")
  | Ok (IPv6Address n None) =>
      (n < 2 ^ 128)%N
      /\ _reverse_ip ip
         = Ok (List.last (chars (hex032 n)) "",
               join "." (rev (removelast (chars (hex032 n))))
               +:+ "." +:+ "ip6.arpa")
  | Ok (IPv6Address n (Some _)) => _reverse_ip ip = Raise AddressValueError
  | Raise e => _reverse_ip ip = Raise e
  end.
Proof.
  destruct (ip_address ip) as [[n|n [scope_id|]]|e] eqn:H.
  - unfold _reverse_ip. rewrite H.
    change (Ok (IPv4Address n) ≫= ?k) with (k (IPv4Address n)). cbv beta iota.
    unfold str_ipv4.
    rewrite (split_on_join "." (map str_of_N (to_bytes4 n)));
      [| discriminate | apply to_bytes4_octets].
    apply (reverse_units (map str_of_N (to_bytes4 n)) "in-addr.arpa").
    simpl. lia.
  - unfold _reverse_ip. rewrite H. reflexivity.
  - pose proof (parse_ipv6_bound _ _ _ (ip_address_v6 _ _ _ H)) as Hn.
    split; [exact Hn|].
    unfold _reverse_ip. rewrite H.
    change (Ok (IPv6Address n None) ≫= ?k) with (k (IPv6Address n None)).
    cbv beta iota.
    destruct (exploded_digits n Hn) as (ex & -> & He).
    change (Ok ex ≫= ?k) with (k ex). cbv beta.
    rewrite remove_char_rev, He, chars_rev.
    apply (reverse_units (chars (hex032 n)) "ip6.arpa").
    rewrite chars_length, (hex032_length n Hn). lia.
  - unfold _reverse_ip. rewrite H. reflexivity.
Qed.

(** X5: [to_reverse] and [reverse_pointer] raise in two cases only: when
    [ipaddress.ip_address] raises, and then the same error, and when the
    string is an IPv6 address with a scope identifier, and then the
    [AddressValueError] of [exploded]. Unpacking the units of an address
    and joining them never fails. *)
Theorem to_reverse_raises ip e :
  (to_reverse ip = Raise e <->
   ip_address ip = Raise e
   \/ exists n scope_id,
        ip_address ip = Ok (IPv6Address n (Some scope_id))
        /\ e = AddressValueError)
  /\ (reverse_pointer ip = Raise e <->
      ip_address ip = Raise e
      \/ exists n scope_id,
           ip_address ip = Ok (IPv6Address n (Some scope_id))
           /\ e = AddressValueError).
Proof.
  pose proof (reverse_ip_cases ip) as H.
  unfold to_reverse, reverse_pointer.
  destruct (ip_address ip) as [[n|n [scope_id|]]|e'].
  - rewrite H. simpl.
    split; (split; [discriminate|]);
      intros [H'|(? & ? & H' & _)]; discriminate.
  - rewrite H. simpl.
    split; (split; [intros H'; injection H' as <-; right; eauto|]);
      intros [H'|(? & ? & _ & ->)]; [discriminate | reflexivity
                                    | discriminate | reflexivity].
  - destruct H as [_ H]. rewrite H. simpl.
    split; (split; [discriminate|]);
      intros [H'|(? & ? & H' & _)]; discriminate.
  - rewrite H. simpl.
    split; (split; [intros H'; left; congruence|]);
      intros [H'|(? & ? & H' & _)]; [congruence | discriminate
                                    | congruence | discriminate].
Qed.

Lemma join_dotted ls x : join "." (ls ++ [x]) = dotted ls +:+ x.
Proof.
  induction ls as [|l ls IH]; [reflexivity|].
  destruct ls as [|l' ls].
  - simpl. rewrite ?append_assoc, ?append_nil_r. reflexivity.
  - change ((l :: l' :: ls) ++ [x]) with (l :: (l' :: ls) ++ [x]).
    change ((l' :: ls) ++ [x]) with (l' :: (ls ++ [x])) at 1.
    rewrite join_cons. change (l' :: ls ++ [x]) with ((l' :: ls) ++ [x]).
    rewrite IH. simpl. rewrite !append_assoc. reflexivity.
Qed.

Lemma dotted_app a b : dotted (a ++ b) = dotted a +:+ dotted b.
Proof.
  induction a as [|l a IH]; [reflexivity|]. simpl.
  rewrite IH, !append_assoc. reflexivity.
Qed.

Lemma dotted_join ls : ls <> [] -> dotted ls = join "." ls +:+ ".".
Proof.
  intros H. induction ls as [|l ls IH]; [congruence|]. destruct ls as [|l' ls].
  - simpl. rewrite append_nil_r. reflexivity.
  - rewrite join_cons. cbn [dotted] in *. rewrite IH by discriminate.
    rewrite !append_assoc. reflexivity.
Qed.

(** The pointer is its labels joined with dots: the units from the last
    to the first, then the two labels of the zone. *)
Lemma pointer_labels (l : list string) (zone1 : string) :
  2 <= length l ->
  join "." [List.last l "";
            join "." (rev (removelast l)) +:+ "." +:+ zone1 +:+ ".arpa"]
  = dotted (rev l ++ [zone1]) +:+ "arpa".
Proof.
  intros Hlen.
  assert (Hne : l <> []) by (destruct l; [simpl in Hlen; lia | discriminate]).
  rewrite (rev_last_removelast l "" Hne).
  assert (Hr : rev (removelast l) <> []).
  { intros E. apply (removelast_nonempty l Hlen).
    apply (f_equal (@rev _)) in E. rewrite rev_involutive in E. exact E. }
  change ((List.last l "" :: rev (removelast l)) ++ [zone1])
    with (List.last l "" :: (rev (removelast l) ++ [zone1])).
  cbn [dotted]. rewrite dotted_app, (dotted_join _ Hr). cbn [dotted].
  rewrite join_cons, !append_assoc. reflexivity.
Qed.

Lemma reverse_pointer_labels ip :
  match ip_address ip with
  | Ok (IPv4Address n) =>
      reverse_pointer ip
      = Ok (dotted (rev (map str_of_N (to_bytes4 n)) ++ ["in-addr"]) +:+ "arpa")
  | Ok (IPv6Address n None) =>
      (n < 2 ^ 128)%N
      /\ reverse_pointer ip
         = Ok (dotted (rev (chars (hex032 n)) ++ ["ip6"]) +:+ "arpa")
  | Ok (IPv6Address n (Some _)) => reverse_pointer ip = Raise AddressValueError
  | Raise e => reverse_pointer ip = Raise e
  end.
Proof.
  pose proof (reverse_ip_cases ip) as H. unfold reverse_pointer.
  destruct (ip_address ip) as [[n|n [scope_id|]]|e].
  - rewrite H. cbn [mbind result_bind bind fst snd]. f_equal.
    apply (pointer_labels (map str_of_N (to_bytes4 n)) "in-addr").
    simpl. lia.
  - rewrite H. reflexivity.
  - destruct H as [Hn H]. split; [exact Hn|].
    rewrite H. cbn [mbind result_bind bind fst snd]. f_equal.
    apply (pointer_labels (chars (hex032 n)) "ip6").
    rewrite chars_length, (hex032_length n Hn). lia.
  - rewrite H. reflexivity.
Qed.

Lemma octet_label b :
  (b < 256)%N -> nonempty_all is_label_char (str_of_N b)
                 /\ int10 (str_of_N b) = b.
Proof.
  intros H.
  assert (Hall : forallb
            (fun k => negb (String.eqb (str_of_N (N.of_nat k)) "")
                      && str_all is_label_char (str_of_N (N.of_nat k))
                      && (int10 (str_of_N (N.of_nat k)) =? N.of_nat k)%N)
            (seq 0 256) = true) by (vm_compute; reflexivity).
  rewrite forallb_forall in Hall.
  specialize (Hall (N.to_nat b)). rewrite N2Nat.id in Hall.
  assert (Hb : In (N.to_nat b) (seq 0 256)) by (apply in_seq; lia).
  apply Hall in Hb. apply andb_true_iff in Hb as [Hb Hi].
  apply andb_true_iff in Hb as [Hne Hl].
  apply negb_true_iff, String.eqb_neq in Hne. apply N.eqb_eq in Hi.
  repeat split; assumption.
Qed.

Lemma octets_labels n :
  Forall (nonempty_all is_label_char) (map str_of_N (to_bytes4 n)).
Proof.
  unfold to_bytes4. repeat constructor;
    apply octet_label, N.mod_lt; discriminate.
Qed.

Lemma hex_digit_label d : (d < 16)%N -> is_label_char (hex_digit d) = true.
Proof.
  intros H.
  assert (Hd : In d (map N.of_nat (seq 0 16))).
  { apply in_map_iff. exists (N.to_nat d). split; [lia|].
    apply in_seq. lia. }
  simpl in Hd.
  repeat (destruct Hd as [<-|Hd]; [reflexivity|]). destruct Hd.
Qed.

Lemma hex_le_labels fuel n : forallb is_label_char (hex_le fuel n) = true.
Proof.
  revert n. induction fuel as [|fuel IH]; intros n; [reflexivity|].
  cbn [hex_le]. destruct (n =? 0)%N; [reflexivity|]. cbn [forallb].
  rewrite IH, hex_digit_label; [reflexivity|].
  apply N.mod_lt. discriminate.
Qed.

Lemma str_all_of_list p l :
  str_all p (string_of_list_ascii l) = forallb p l.
Proof. induction l; simpl; congruence. Qed.

Lemma forallb_repeat {A} (p : A -> bool) x k :
  p x = true -> forallb p (repeat x k) = true.
Proof. intros H. induction k; simpl; [reflexivity|]. rewrite H. auto. Qed.

Lemma forallb_rev' {A} (p : A -> bool) l : forallb p (rev l) = forallb p l.
Proof.
  induction l as [|x l IH]; [reflexivity|]. simpl.
  rewrite forallb_app, IH. simpl. rewrite andb_true_r. apply andb_comm.
Qed.

Lemma hex032_labels n : str_all is_label_char (hex032 n) = true.
Proof.
  unfold hex032, zero_pad. rewrite str_all_app, str_all_of_list.
  rewrite forallb_repeat by reflexivity. unfold hex.
  destruct (n =? 0)%N; [reflexivity|].
  rewrite str_all_of_list, forallb_rev'. apply hex_le_labels.
Qed.

Lemma chars_labels p s :
  str_all p s = true -> Forall (nonempty_all p) (chars s).
Proof.
  induction s as [|c s IH]; simpl; intros H; [constructor|].
  apply andb_true_iff in H as [Hc Hs]. constructor; [|auto].
  split; [discriminate|]. simpl. rewrite Hc. reflexivity.
Qed.

Lemma Forall_rev' {A} (P : A -> Prop) l : Forall P l -> Forall P (rev l).
Proof.
  induction 1 as [|x l Hx Hl IH]; [constructor|]. simpl.
  apply Forall_app. split; [exact IH | constructor; [exact Hx | constructor]].
Qed.

(** X6: a reverse pointer is a domain name: whatever [reverse_pointer]
    returns is accepted by [validate_domain_name], and is a name of the
    grammar without a wildcard. *)
Theorem reverse_pointer_valid_name ip name :
  reverse_pointer ip = Ok name ->
  validate_domain_name name = Ok tt /\ domain_name_grammar name.
Proof.
  intros H.
  assert (Hg : domain_name_grammar name).
  { pose proof (reverse_pointer_labels ip) as Hl.
    destruct (ip_address ip) as [[n|n [scope_id|]]|e].
    - rewrite H in Hl. injection Hl as ->.
      exists false, (rev (map str_of_N (to_bytes4 n)) ++ ["in-addr"]), "arpa".
      split; [reflexivity|]. split.
      + apply Forall_app. split; [apply Forall_rev', octets_labels|].
        repeat constructor; discriminate.
      + split; [discriminate | reflexivity].
    - rewrite H in Hl. discriminate.
    - destruct Hl as [_ Hl]. rewrite H in Hl. injection Hl as ->.
      exists false, (rev (chars (hex032 n)) ++ ["ip6"]), "arpa".
      split; [reflexivity|]. split.
      + apply Forall_app. split.
        * apply Forall_rev', chars_labels, hex032_labels.
        * repeat constructor; discriminate.
      + split; [discriminate | reflexivity].
    - rewrite H in Hl. discriminate. }
  split; [|exact Hg]. apply validate_domain_name_accepts. left. exact Hg.
Qed.

Lemma reverse_pointer_valid_name_witness :
  validate_domain_name "2.1.168.192.in-addr.arpa" = Ok tt
  /\ domain_name_grammar "2.1.168.192.in-addr.arpa".
Proof.
  apply (reverse_pointer_valid_name "192.168.1.2"). reflexivity.
Defined.

Lemma split_on_dotted ls x :
  Forall (fun w => str_mem "." w = false) ls -> str_mem "." x = false ->
  split_on "." (dotted ls +:+ x) = ls ++ [x].
Proof.
  intros Hls Hx. induction Hls as [|l ls Hl _ IH].
  - simpl. rewrite append_nil_l. apply split_on_nosep, Hx.
  - simpl. rewrite !append_assoc.
    change ("." +:+ dotted ls +:+ x) with (String "." (dotted ls +:+ x)).
    rewrite (split_on_app _ _ _ Hl), IH. reflexivity.
Qed.

Lemma labels_no_dot ls :
  Forall (nonempty_all is_label_char) ls ->
  Forall (fun w => str_mem "." w = false) ls.
Proof.
  induction 1 as [|w ls [_ Hw] _ IH]; constructor; [|exact IH].
  apply (str_mem_all "." is_label_char w Hw). reflexivity.
Qed.

Lemma parse_ipv4_bytes ip n :
  parse_ipv4 ip = Some n -> from_bytes_big (to_bytes4 n) = n.
Proof.
  unfold parse_ipv4, v4_int_from_string. intros H.
  destruct (str_mem "/" ip); [discriminate|].
  destruct (String.eqb ip ""); [discriminate|].
  destruct (split_on "." ip) as [|a [|b [|c [|d [|e l]]]]]; try discriminate.
  destruct (_parse_octet a) as [oa|] eqn:Ea; [|discriminate].
  destruct (_parse_octet b) as [ob|] eqn:Eb; [|discriminate].
  destruct (_parse_octet c) as [oc|] eqn:Ec; [|discriminate].
  destruct (_parse_octet d) as [od|] eqn:Ed; [|discriminate].
  simpl in H. injection H as <-.
  rewrite to_bytes4_from_bytes by eauto using parse_octet_bound.
  reflexivity.
Qed.

Lemma octets_inj n1 n2 :
  map str_of_N (to_bytes4 n1) = map str_of_N (to_bytes4 n2) ->
  to_bytes4 n1 = to_bytes4 n2.
Proof.
  intros H. apply (f_equal (map int10)) in H. rewrite !map_map in H.
  assert (Hid : forall n, map (fun x => int10 (str_of_N x)) (to_bytes4 n)
                          = to_bytes4 n).
  { intros n. unfold to_bytes4. cbn [map].
    repeat match goal with
           | |- context [int10 (str_of_N ?b)] =>
               rewrite (proj2 (octet_label b
                                 ltac:(apply N.mod_lt; discriminate)))
           end.
    reflexivity. }
  rewrite !Hid in H. exact H.
Qed.

Lemma chars_concat s : str_concat (chars s) = s.
Proof. induction s as [|c s IH]; simpl; [reflexivity|]. rewrite IH. reflexivity. Qed.

Lemma Ok_inj {A} (a b : A) : Ok a = Ok b -> a = b.
Proof. congruence. Qed.

(** X7: [reverse_pointer] tells addresses apart: two strings with the
    same reverse pointer are the same address. *)
Theorem reverse_pointer_injective ip1 ip2 name :
  reverse_pointer ip1 = Ok name -> reverse_pointer ip2 = Ok name ->
  ip_address ip1 = ip_address ip2.
Proof.
  intros H1 H2.
  pose proof (reverse_pointer_labels ip1) as L1.
  pose proof (reverse_pointer_labels ip2) as L2.
  assert (Hsplit4 : forall n,
             split_on "." (dotted (rev (map str_of_N (to_bytes4 n))
                                   ++ ["in-addr"]) +:+ "arpa")
             = (rev (map str_of_N (to_bytes4 n)) ++ ["in-addr"]) ++ ["arpa"]).
  { intros n. apply split_on_dotted; [|reflexivity]. apply labels_no_dot.
    apply Forall_app. split; [apply Forall_rev', octets_labels|].
    repeat constructor; discriminate. }
  assert (Hsplit6 : forall n,
             split_on "." (dotted (rev (chars (hex032 n)) ++ ["ip6"])
                           +:+ "arpa")
             = (rev (chars (hex032 n)) ++ ["ip6"]) ++ ["arpa"]).
  { intros n. apply split_on_dotted; [|reflexivity]. apply labels_no_dot.
    apply Forall_app. split.
    - apply Forall_rev', chars_labels, hex032_labels.
    - repeat constructor; discriminate. }
  destruct (ip_address ip1) as [[n1|n1 [scope1|]]|e1] eqn:E1;
    destruct (ip_address ip2) as [[n2|n2 [scope2|]]|e2] eqn:E2;
    try (rewrite H1 in L1; discriminate L1);
    try (rewrite H2 in L2; discriminate L2).
  - rewrite H1 in L1. rewrite H2 in L2. apply Ok_inj in L1. subst name.
    apply Ok_inj in L2. apply (f_equal (split_on ".")) in L2.
    rewrite !Hsplit4 in L2. apply app_inv_tail, app_inv_tail in L2.
    apply (f_equal (@rev _)) in L2. rewrite !rev_involutive in L2.
    apply octets_inj in L2.
    rewrite <- (parse_ipv4_bytes _ _ (ip_address_v4 _ _ E1)).
    rewrite <- (parse_ipv4_bytes _ _ (ip_address_v4 _ _ E2)).
    rewrite L2. reflexivity.
  - exfalso. destruct L2 as [Hn2 L2].
    rewrite H1 in L1. rewrite H2 in L2. apply Ok_inj in L1. subst name.
    apply Ok_inj in L2. apply (f_equal (split_on ".")) in L2.
    rewrite Hsplit4, Hsplit6 in L2. apply (f_equal (@length _)) in L2.
    rewrite !length_app, !length_rev, chars_length, (hex032_length n2 Hn2)
      in L2. simpl in L2. lia.
  - exfalso. destruct L1 as [Hn1 L1].
    rewrite H1 in L1. rewrite H2 in L2. apply Ok_inj in L1. subst name.
    apply Ok_inj in L2. apply (f_equal (split_on ".")) in L2.
    rewrite Hsplit4, Hsplit6 in L2. apply (f_equal (@length _)) in L2.
    rewrite !length_app, !length_rev, chars_length, (hex032_length n1 Hn1)
      in L2. simpl in L2. lia.
  - destruct L1 as [_ L1]. destruct L2 as [_ L2].
    rewrite H1 in L1. rewrite H2 in L2. apply Ok_inj in L1. subst name.
    apply Ok_inj in L2. apply (f_equal (split_on ".")) in L2.
    rewrite !Hsplit6 in L2. apply app_inv_tail, app_inv_tail in L2.
    apply (f_equal (@rev _)) in L2. rewrite !rev_involutive in L2.
    apply (f_equal str_concat) in L2. rewrite !chars_concat in L2.
    apply (f_equal int16) in L2. rewrite !int16_hex032 in L2.
    rewrite L2. reflexivity.
Qed.

Lemma reverse_pointer_injective_witness :
  ip_address "2001:db8::1428:57ab" = ip_address "2001:0db8:0:0::1428:57ab".
Proof.
  apply (reverse_pointer_injective _ _
    "b.a.7.5.8.2.4.1.0.0.0.0.0.0.0.0.0.0.0.0.0.0.0.0.8.b.d.0.1.0.0.2.ip6.arpa");
    vm_compute; reflexivity.
Defined.

(** ** The domain of a record name: exact matches, ties, reverse zones *)

Lemma find_domain_head objects record_name :
  find_domain_for_record objects record_name
  = match sorted_desc (fun d => String.length (dom_name d))
            (List.filter
               (fun d => str_in (dom_name d)
                           (partial_domains (split_on "." record_name)))
               objects) with
    | d :: _ => Some d
    | [] => None
    end.
Proof. reflexivity. Qed.

Lemma matching_suffix record_name d :
  str_in (dom_name d) (partial_domains (split_on "." record_name)) = true
  <-> label_suffix record_name (dom_name d).
Proof. rewrite str_in_In. apply partial_domains_suffixes. Qed.

Lemma append_length_inj a b c d :
  a +:+ b = c +:+ d -> String.length b = String.length d -> a = c /\ b = d.
Proof.
  revert c. induction a as [|x a IH]; intros [|y c] H Hlen; str_simpl.
  - auto.
  - subst b. simpl in Hlen. rewrite str_length_app in Hlen. lia.
  - subst d. simpl in Hlen. rewrite str_length_app in Hlen. lia.
  - injection H as -> H. destruct (IH _ H Hlen) as [-> ->]. auto.
Qed.

(** A suffix of a name is a final part of it, so it is not longer, and
    two suffixes of the same length are the same. *)
Lemma label_suffix_final name s :
  label_suffix name s -> exists dropped, name = dropped +:+ s.
Proof.
  intros [-> | (dropped & ->)]; [exists ""; reflexivity|].
  exists (dropped +:+ "."). rewrite append_assoc. reflexivity.
Qed.

Lemma label_suffix_length name s :
  label_suffix name s -> String.length s <= String.length name.
Proof.
  intros H. apply label_suffix_final in H as (dropped & ->).
  rewrite str_length_app. lia.
Qed.

Lemma label_suffix_same_length name s1 s2 :
  label_suffix name s1 -> label_suffix name s2 ->
  String.length s1 = String.length s2 -> s1 = s2.
Proof.
  intros H1 H2 Hlen.
  apply label_suffix_final in H1 as (p1 & E1).
  apply label_suffix_final in H2 as (p2 & E2).
  rewrite E1 in E2. apply append_length_inj in E2 as [_ E]; assumption.
Qed.

Lemma sorted_desc_nil {A} (key : A -> nat) l : sorted_desc key l = [] -> l = [].
Proof.
  destruct l as [|x l]; [reflexivity|]. simpl.
  destruct (sorted_desc key l) as [|y s]; simpl; [discriminate|].
  destruct (key y <=? key x)%nat; discriminate.
Qed.

(** The first element of the sorted list is the first element of the
    list among those of greatest key. *)
Lemma sorted_desc_first {A} (key : A -> nat) l d rest :
  sorted_desc key l = d :: rest ->
  exists l1 l2, l = l1 ++ d :: l2
                /\ (forall x, In x l1 -> key x < key d)
                /\ (forall x, In x l2 -> key x <= key d).
Proof.
  revert d rest. induction l as [|x l IH]; intros d rest H; [discriminate|].
  simpl in H. destruct (sorted_desc key l) as [|y s] eqn:Es.
  - apply sorted_desc_nil in Es. subst l. simpl in H. injection H as <- <-.
    exists [], []. repeat split; intros z [].
  - destruct (IH y s eq_refl) as (l1 & l2 & -> & H1 & H2).
    simpl in H. destruct (Nat.leb_spec (key y) (key x)) as [Hle|Hlt].
    + injection H as <- <-. exists [], (l1 ++ y :: l2).
      split; [reflexivity|]. split; [intros z []|].
      intros z Hz. apply in_app_or in Hz as [Hz|[<-|Hz]].
      * specialize (H1 z Hz). lia.
      * exact Hle.
      * specialize (H2 z Hz). lia.
    + injection H as <- <-. exists (x :: l1), l2.
      split; [reflexivity|]. split; [|exact H2].
      intros z [<-|Hz]; [exact Hlt | auto].
Qed.

Lemma filter_app_cons_inv {A} (p : A -> bool) l l1 d l2 :
  List.filter p l = l1 ++ d :: l2 ->
  exists o1 o2, l = o1 ++ d :: o2
                /\ List.filter p o1 = l1 /\ List.filter p o2 = l2.
Proof.
  revert l1. induction l as [|x l IH]; intros l1 H.
  - destruct l1; discriminate.
  - simpl in H. destruct (p x) eqn:Hx.
    + destruct l1 as [|y l1]; simpl in H; injection H as -> H.
      * exists [], l. auto.
      * destruct (IH _ H) as (o1 & o2 & -> & <- & <-).
        exists (y :: o1), o2. simpl. rewrite Hx. auto.
    + destruct (IH _ H) as (o1 & o2 & -> & <- & <-).
      exists (x :: o1), o2. simpl. rewrite Hx. auto.
Qed.

(** What [find_domain_for_record] returns, from the two lemmas on the
    sort: a matching row, no matching row has a longer name, and no row
    before it has a name as long. *)
Lemma find_domain_some objects record_name d :
  find_domain_for_record objects record_name = Some d ->
  label_suffix record_name (dom_name d)
  /\ exists before after,
       objects = before ++ d :: after
       /\ (forall x, In x before -> label_suffix record_name (dom_name x) ->
                     String.length (dom_name x) < String.length (dom_name d))
       /\ (forall x, In x after -> label_suffix record_name (dom_name x) ->
                     String.length (dom_name x) <= String.length (dom_name d)).
Proof.
  rewrite find_domain_head. intros H.
  destruct (sorted_desc _ _) as [|d0 rest] eqn:Es; [discriminate|].
  injection H as ->.
  apply sorted_desc_first in Es as (l1 & l2 & Ef & H1 & H2).
  pose proof Ef as Ef'.
  apply filter_app_cons_inv in Ef as (o1 & o2 & -> & <- & <-).
  assert (Hd : In d (List.filter
                       (fun d => str_in (dom_name d)
                                   (partial_domains (split_on "." record_name)))
                       (o1 ++ d :: o2))).
  { rewrite Ef'. apply in_or_app. right. left. reflexivity. }
  apply filter_In in Hd as [_ Hd]. apply matching_suffix in Hd.
  split; [exact Hd|]. exists o1, o2. split; [reflexivity|]. split.
  - intros x Hx Hs. apply H1, filter_In. split; [exact Hx|].
    apply matching_suffix, Hs.
  - intros x Hx Hs. apply H2, filter_In. split; [exact Hx|].
    apply matching_suffix, Hs.
Qed.

Lemma find_domain_none objects record_name d :
  find_domain_for_record objects record_name = None ->
  In d objects -> ~ label_suffix record_name (dom_name d).
Proof.
  rewrite find_domain_head. intros H Hd Hs.
  destruct (sorted_desc _ _) as [|d0 rest] eqn:Es; [|discriminate].
  apply sorted_desc_nil in Es.
  assert (Hin : In d (List.filter
                        (fun d => str_in (dom_name d)
                                    (partial_domains (split_on "." record_name)))
                        objects)).
  { apply filter_In. split; [exact Hd | apply matching_suffix, Hs]. }
  rewrite Es in Hin. destruct Hin.
Qed.

(** X8: when a domain is registered under the very name of the record,
    [find_domain_for_record] returns a domain of that name. *)
Theorem find_domain_exact_match objects record_name d :
  In d objects -> dom_name d = record_name ->
  exists d', find_domain_for_record objects record_name = Some d'
             /\ In d' objects /\ dom_name d' = record_name.
Proof.
  intros Hd Hname.
  assert (Hs : label_suffix record_name (dom_name d)) by (left; exact Hname).
  destruct (find_domain_for_record objects record_name) as [d'|] eqn:E.
  - exists d'. split; [reflexivity|].
    destruct (find_domain_some _ _ _ E) as (Hs' & before & after & Eo & Hb & Ha).
    split; [rewrite Eo; apply in_or_app; right; left; reflexivity|].
    assert (Hle : String.length (dom_name d) <= String.length (dom_name d')).
    { rewrite Eo in Hd. apply in_app_or in Hd as [Hd|[<-|Hd]].
      - specialize (Hb d Hd Hs). lia.
      - lia.
      - exact (Ha d Hd Hs). }
    pose proof (label_suffix_length _ _ Hs') as Hle'.
    rewrite Hname in Hle.
    apply (label_suffix_same_length record_name);
      [exact Hs' | left; reflexivity | lia].
  - exfalso. exact (find_domain_none _ _ d E Hd Hs).
Qed.

Lemma find_domain_exact_match_witness :
  exists d',
    find_domain_for_record
      [mk_domain 1 "example.com"; mk_domain 2 "www.example.com"]
      "www.example.com" = Some d'
    /\ In d' [mk_domain 1 "example.com"; mk_domain 2 "www.example.com"]
    /\ dom_name d' = "www.example.com".
Proof.
  apply (find_domain_exact_match _ _ (mk_domain 2 "www.example.com"));
    [right; left; reflexivity | reflexivity].
Defined.

(** X9: ties are between rows of the same name only, and the row
    returned is the first of them in the order of the table: a matching
    domain as long as the one returned has the same name, and no row
    before the one returned has that name. *)
Theorem find_domain_tie_break objects record_name d :
  find_domain_for_record objects record_name = Some d ->
  (forall d', In d' objects -> label_suffix record_name (dom_name d') ->
              String.length (dom_name d') = String.length (dom_name d) ->
              dom_name d' = dom_name d)
  /\ exists before after,
       objects = before ++ d :: after
       /\ forall x, In x before -> dom_name x <> dom_name d.
Proof.
  intros H.
  destruct (find_domain_some _ _ _ H) as (Hs & before & after & Eo & Hb & _).
  split.
  - intros d' _ Hs' Hlen.
    apply (label_suffix_same_length record_name); assumption.
  - exists before, after. split; [exact Eo|]. intros x Hx Hname.
    assert (Hsx : label_suffix record_name (dom_name x))
      by (rewrite Hname; exact Hs).
    specialize (Hb x Hx Hsx). rewrite Hname in Hb. lia.
Qed.

Lemma find_domain_tie_break_witness :
  exists before after,
    [mk_domain 1 "com"; mk_domain 2 "example.com"; mk_domain 3 "example.com"]
    = before ++ mk_domain 2 "example.com" :: after
    /\ forall x, In x before -> dom_name x <> "example.com".
Proof.
  apply (find_domain_tie_break
           [mk_domain 1 "com"; mk_domain 2 "example.com";
            mk_domain 3 "example.com"] "www.example.com"
           (mk_domain 2 "example.com")).
  reflexivity.
Defined.

(** X10: the zone [to_reverse] returns holds the reverse pointer: when a
    domain is registered under that zone, looking up the reverse pointer
    finds a registered domain, the zone or a more specific one. *)
Theorem reverse_pointer_zone_found objects ip unit zone d :
  to_reverse ip = Ok (unit, zone) -> In d objects -> dom_name d = zone ->
  exists name d',
    reverse_pointer ip = Ok name
    /\ find_domain_for_record objects name = Some d'
    /\ In d' objects
    /\ label_suffix name (dom_name d')
    /\ String.length zone <= String.length (dom_name d').
Proof.
  intros Hrev Hd Hname. exists (unit +:+ "." +:+ zone).
  assert (Hs : label_suffix (unit +:+ "." +:+ zone) (dom_name d)).
  { right. exists unit. rewrite Hname. reflexivity. }
  destruct (find_domain_for_record objects (unit +:+ "." +:+ zone))
    as [d'|] eqn:E.
  - exists d'. split.
    { unfold reverse_pointer. unfold to_reverse in Hrev. rewrite Hrev.
      reflexivity. }
    split; [reflexivity|].
    destruct (find_domain_some _ _ _ E) as (Hs' & before & after & Eo & Hb & Ha).
    split; [rewrite Eo; apply in_or_app; right; left; reflexivity|].
    split; [exact Hs'|]. rewrite <- Hname.
    rewrite Eo in Hd. apply in_app_or in Hd as [Hd|[<-|Hd]].
    + specialize (Hb d Hd Hs). lia.
    + lia.
    + exact (Ha d Hd Hs).
  - exfalso. exact (find_domain_none _ _ d E Hd Hs).
Qed.

Lemma reverse_pointer_zone_found_witness :
  exists name d',
    reverse_pointer "192.168.1.2" = Ok name
    /\ find_domain_for_record
         [mk_domain 1 "168.192.in-addr.arpa"; mk_domain 2 "1.168.192.in-addr.arpa"]
         name = Some d'
    /\ In d' [mk_domain 1 "168.192.in-addr.arpa";
              mk_domain 2 "1.168.192.in-addr.arpa"]
    /\ label_suffix name (dom_name d')
    /\ String.length "1.168.192.in-addr.arpa" <= String.length (dom_name d').
Proof.
  apply (reverse_pointer_zone_found _ "192.168.1.2" "2"
           "1.168.192.in-addr.arpa" (mk_domain 2 "1.168.192.in-addr.arpa")).
  - vm_compute. reflexivity.
  - right. left. reflexivity.
  - reflexivity.
Defined.

(** ** Templates and their arguments *)

Lemma get_integer_from_raise s :
  forall accumulator e,
    get_integer_from accumulator s = Raise e ->
    e = ValueError "Too many decimal digits in format string".
Proof.
  induction s as [|c s IH]; intros a e; [discriminate|].
  cbn [get_integer_from]. destruct (is_digit c); [|discriminate]. simpl.
  destruct (_ <? _)%N; [congruence | apply IH].
Qed.

Lemma get_field_value_more arguments arguments' name v :
  arguments ⊆ arguments' ->
  get_field_value arguments name = Ok v ->
  get_field_value arguments' name = Ok v.
Proof.
  intros Hsub. unfold get_field_value.
  destruct (get_integer name) as [[i|]|e]; simpl; try discriminate.
  destruct (String.eqb name ""); [discriminate|].
  destruct (arguments !! name) as [w|] eqn:E; [|discriminate].
  intros H. rewrite (lookup_weaken _ _ _ _ E Hsub). exact H.
Qed.

Lemma get_field_value_key_error arguments name key :
  get_field_value arguments name = Raise (KeyError key) ->
  arguments !! key = None /\ str_all is_digit key = false.
Proof.
  unfold get_field_value, get_integer.
  destruct (String.eqb name "") eqn:En; simpl.
  - discriminate.
  - destruct (get_integer_from 0 name) as [[i|]|e] eqn:Ei; simpl.
    + discriminate.
    + destruct (arguments !! name) as [w|] eqn:E; [discriminate|].
      intros H. injection H as <-.
      split; [exact E | apply (get_integer_from_none _ _ Ei)].
    + intros H. injection H as ->.
      apply get_integer_from_raise in Ei. discriminate.
Qed.

Lemma format_go_more arguments arguments' :
  arguments ⊆ arguments' ->
  forall n s field r,
    String.length s <= n ->
    format_go arguments field s = Ok r ->
    format_go arguments' field s = Ok r.
Proof.
  intros Hsub. induction n as [|n IH]; intros s field r Hn.
  - destruct s; [|simpl in Hn; lia].
    destruct field; simpl; [discriminate | auto].
  - destruct field as [name|]; destruct s as [|c s]; cbn [format_go]; auto.
    + simpl in Hn. destruct (Ascii.eqb c "}").
      * destruct (get_field_value arguments name) as [v|] eqn:Ev;
          [|discriminate].
        rewrite (get_field_value_more _ _ _ _ Hsub Ev). simpl.
        destruct (format_go arguments None s) as [t|] eqn:Et; [|discriminate].
        rewrite (IH s None t); [auto | lia | exact Et].
      * destruct (Ascii.eqb c "{"); [discriminate|].
        destruct (str_mem c ".[!:"); [discriminate|].
        apply IH. lia.
    + simpl in Hn. destruct (Ascii.eqb c "{").
      * destruct s as [|d s]; [discriminate|]. simpl in Hn.
        destruct (Ascii.eqb d "{").
        -- destruct (format_go arguments None s) as [t|] eqn:Et;
             [|discriminate].
           rewrite (IH s None t); [auto | lia | exact Et].
        -- apply IH. simpl. lia.
      * destruct (Ascii.eqb c "}").
        -- destruct s as [|d s]; [discriminate|]. simpl in Hn.
           destruct d as [[] [] [] [] [] [] [] []]; try discriminate.
           destruct (format_go arguments None s) as [t|] eqn:Et;
             [|discriminate].
           rewrite (IH s None t); [auto | lia | exact Et].
        -- destruct (format_go arguments None s) as [t|] eqn:Et;
             [|discriminate].
           rewrite (IH s None t); [auto | lia | exact Et].
Qed.

Lemma format_go_key_error arguments key :
  forall n s field,
    String.length s <= n ->
    format_go arguments field s = Raise (KeyError key) ->
    arguments !! key = None /\ str_all is_digit key = false.
Proof.
  induction n as [|n IH]; intros s field Hn.
  - destruct s; [|simpl in Hn; lia].
    destruct field; simpl; discriminate.
  - destruct field as [name|]; destruct s as [|c s]; cbn [format_go];
      try discriminate.
    + simpl in Hn. destruct (Ascii.eqb c "}").
      * destruct (get_field_value arguments name) as [v|e] eqn:Ev.
        -- simpl. destruct (format_go arguments None s) as [t|e] eqn:Et;
             [discriminate|].
           simpl. intros H. injection H as ->. apply (IH s None); [lia|auto].
        -- simpl. intros H. injection H as ->.
           apply (get_field_value_key_error _ _ _ Ev).
      * destruct (Ascii.eqb c "{"); [discriminate|].
        destruct (str_mem c ".[!:"); [discriminate|].
        apply IH. lia.
    + simpl in Hn. destruct (Ascii.eqb c "{").
      * destruct s as [|d s]; [discriminate|]. simpl in Hn.
        destruct (Ascii.eqb d "{").
        -- destruct (format_go arguments None s) as [t|e] eqn:Et;
             [discriminate|].
           simpl. intros H. injection H as ->. apply (IH s None); [lia|auto].
        -- apply IH. simpl. lia.
      * destruct (Ascii.eqb c "}").
        -- destruct s as [|d s]; [discriminate|]. simpl in Hn.
           destruct d as [[] [] [] [] [] [] [] []]; try discriminate.
           destruct (format_go arguments None s) as [t|e] eqn:Et;
             [discriminate|].
           simpl. intros H. injection H as ->. apply (IH s None); [lia|auto].
        -- destruct (format_go arguments None s) as [t|e] eqn:Et;
             [discriminate|].
           simpl. intros H. injection H as ->. apply (IH s None); [lia|auto].
Qed.

Lemma map_result_raise {A B} (f : A -> result B) l e :
  map_result f l = Raise e -> exists x, In x l /\ f x = Raise e.
Proof.
  induction l as [|x l IH]; [discriminate|]. cbn [map_result].
  destruct (f x) as [y|e'] eqn:Ex.
  - simpl. destruct (map_result f l) as [ys|e'] eqn:El; [discriminate|].
    simpl. intros H. injection H as ->.
    destruct (IH eq_refl) as (x' & Hin & Hx). exists x'. split; [right|]; auto.
  - simpl. intros H. injection H as ->. exists x. split; [left|]; auto.
Qed.

(** X11: arguments a template does not name are ignored: what
    [format_recursive] returns with some arguments, it returns with any
    arguments that extend them. *)
Theorem format_recursive_more_arguments template arguments arguments' result :
  arguments ⊆ arguments' ->
  format_recursive template arguments = Ok result ->
  format_recursive template arguments' = Ok result.
Proof.
  intros Hsub. revert result.
  induction template as [s|items IH|elems IH|elems _|a] using value_ind';
    intros result H.
  - cbn [format_recursive] in *. unfold str_format in *.
    destruct (format_go arguments None s) as [t|] eqn:Et; [|discriminate].
    rewrite (format_go_more _ _ Hsub _ s None t (le_n _) Et). exact H.
  - rewrite format_recursive_dict in *.
    destruct (map_result _ items) as [items'|] eqn:E; [|discriminate].
    replace (map_result _ items) with (Ok items'); [exact H|].
    symmetry. apply map_result_Forall2. apply map_result_Forall2 in E.
    clear H. induction E as [|[k v] [k' v'] l l' Hx _ IHE]; constructor.
    + inversion IH as [|? ? Hv _]; subst. simpl in *.
      destruct (format_recursive v arguments) as [w|] eqn:Ew; [|discriminate].
      rewrite (Hv w eq_refl). exact Hx.
    + apply IHE. inversion IH; assumption.
  - rewrite format_recursive_list in *.
    destruct (map_result _ elems) as [elems'|] eqn:E; [|discriminate].
    replace (map_result _ elems) with (Ok elems'); [exact H|].
    symmetry. apply map_result_Forall2. apply map_result_Forall2 in E.
    clear H. induction E as [|v v' l l' Hx _ IHE]; constructor.
    + inversion IH as [|? ? Hv _]; subst. apply Hv, Hx.
    + apply IHE. inversion IH; assumption.
  - exact H.
  - exact H.
Qed.

Lemma format_recursive_more_arguments_witness :
  (<["a" := "A"]> ∅ : gmap string string) ⊆ <["b" := "B"]> (<["a" := "A"]> ∅)
  /\ format_recursive (VList [VStr "Value {a}"; VAtom (AInt 10)])
       (<["b" := "B"]> (<["a" := "A"]> ∅))
     = Ok (VList [VStr "Value A"; VAtom (AInt 10)]).
Proof.
  assert (Hsub : (<["a" := "A"]> ∅ : gmap string string)
                 ⊆ <["b" := "B"]> (<["a" := "A"]> ∅))
    by (apply insert_subseteq; reflexivity).
  split; [exact Hsub|].
  apply (format_recursive_more_arguments _ (<["a" := "A"]> ∅) _ _ Hsub).
  reflexivity.
Defined.

(** X12: a [KeyError] of [format_recursive] names a key that is no
    decimal number and that the arguments do not hold. *)
Theorem format_recursive_key_error template arguments key :
  format_recursive template arguments = Raise (KeyError key) ->
  arguments !! key = None /\ str_all is_digit key = false.
Proof.
  induction template as [s|items IH|elems IH|elems _|a] using value_ind'; intros H.
  - cbn [format_recursive] in H. unfold str_format in H.
    destruct (format_go arguments None s) as [t|e] eqn:Et; [discriminate|].
    simpl in H. injection H as ->.
    apply (format_go_key_error _ _ _ s None (le_n _) Et).
  - rewrite format_recursive_dict in H.
    destruct (map_result _ items) as [items'|e] eqn:E; [discriminate|].
    simpl in H. injection H as ->.
    apply map_result_raise in E. destruct E as ([k v] & Hin & Hx).
    simpl in Hx. destruct (format_recursive v arguments) as [w|e] eqn:Ew;
      [discriminate|].
    simpl in Hx. injection Hx as ->.
    rewrite List.Forall_forall in IH. apply (IH (k, v) Hin). exact Ew.
  - rewrite format_recursive_list in H.
    destruct (map_result _ elems) as [elems'|e] eqn:E; [discriminate|].
    simpl in H. injection H as ->.
    apply map_result_raise in E. destruct E as (v & Hin & Hx).
    rewrite List.Forall_forall in IH. apply (IH v Hin). exact Hx.
  - discriminate.
  - discriminate.
Qed.

Lemma format_recursive_key_error_witness :
  format_recursive (VDict [("c", VList [VStr "Value {b}"])])
    (<["a" := "A"]> ∅) = Raise (KeyError "b")
  /\ (<["a" := "A"]> ∅ : gmap string string) !! "b" = None
  /\ str_all is_digit "b" = false.
Proof.
  split; [reflexivity|].
  apply (format_recursive_key_error (VDict [("c", VList [VStr "Value {b}"])])).
  reflexivity.
Defined.

Lemma format_go_plain arguments s :
  str_all plain_char s = true -> format_go arguments None s = Ok s.
Proof.
  intros H. rewrite <- (append_nil_r s) at 1.
  rewrite (format_go_text _ _ _ H). simpl. rewrite append_nil_r. reflexivity.
Qed.

(** X13: a template none of whose strings holds a brace is returned as
    it is, whatever the arguments. *)
Theorem format_recursive_brace_free template arguments :
  brace_free template = true ->
  format_recursive template arguments = Ok template.
Proof.
  induction template as [s|items IH|elems IH|elems _|a] using value_ind'; intros H.
  - cbn [format_recursive brace_free] in *. unfold str_format.
    rewrite (format_go_plain _ _ H). reflexivity.
  - rewrite format_recursive_dict. cbn [brace_free] in H.
    replace (map_result _ items) with (Ok items); [reflexivity|].
    symmetry. apply map_result_Forall2.
    induction items as [|[k v] items IHi]; constructor.
    + inversion IH as [|? ? Hv _]; subst. simpl in *.
      apply andb_prop in H. rewrite (Hv (proj1 H)). reflexivity.
    + simpl in H. apply andb_prop in H. apply IHi; [|apply H].
      inversion IH; assumption.
  - rewrite format_recursive_list. cbn [brace_free] in H.
    replace (map_result _ elems) with (Ok elems); [reflexivity|].
    symmetry. apply map_result_Forall2.
    induction elems as [|v elems IHe]; constructor.
    + inversion IH as [|? ? Hv _]; subst. simpl in H.
      apply andb_prop in H. apply Hv, H.
    + simpl in H. apply andb_prop in H. apply IHe; [|apply H].
      inversion IH; assumption.
  - reflexivity.
  - reflexivity.
Qed.

Lemma format_recursive_brace_free_witness :
  brace_free (VDict [("a", VStr "no field"); ("d", VAtom (AInt 10))]) = true
  /\ format_recursive (VDict [("a", VStr "no field"); ("d", VAtom (AInt 10))])
       (<["a" := "A"]> ∅)
     = Ok (VDict [("a", VStr "no field"); ("d", VAtom (AInt 10))]).
Proof.
  split; [reflexivity|].
  apply (format_recursive_brace_free
           (VDict [("a", VStr "no field"); ("d", VAtom (AInt 10))])).
  reflexivity.
Defined.

(** ** Conflicts between records *)

Lemma validate_for_conflicts_ok objects self :
  validate_for_conflicts objects self = Ok tt <->
  forall r, In r objects -> conflicts_with self r = false.
Proof.
  rewrite validate_for_conflicts_rows. split.
  - intros H r Hin. destruct (conflicts_with self r) eqn:E; [|reflexivity].
    assert (Hf : In r (List.filter (conflicts_with self) objects))
      by (apply List.filter_In; auto).
    destruct (List.filter (conflicts_with self) objects);
      [destruct Hf | discriminate].
  - intros H. destruct (List.filter (conflicts_with self) objects)
      as [|r l] eqn:E; [reflexivity|].
    assert (Hf : In r (List.filter (conflicts_with self) objects))
      by (rewrite E; left; reflexivity).
    apply List.filter_In in Hf. destruct Hf as [Hin Hc].
    rewrite (H r Hin) in Hc. discriminate.
Qed.

(** X14: removing stored records never makes a record conflict: an
    object that passes [validate_for_conflicts] on a table passes it on
    every table with no other rows, the empty one among them. *)
Theorem validate_for_conflicts_fewer_rows objects objects' self :
  (forall r, In r objects' -> In r objects) ->
  validate_for_conflicts objects self = Ok tt ->
  validate_for_conflicts objects' self = Ok tt.
Proof.
  intros Hsub. rewrite !validate_for_conflicts_ok.
  intros H r Hin. apply H, Hsub, Hin.
Qed.

Lemma validate_for_conflicts_fewer_rows_witness :
  validate_for_conflicts
    [mk_db_record 1 "A" "www.example.com"; mk_db_record 2 "CNAME" "ftp.example.com"]
    (mk_record_like None "A" "www.example.com" "192.168.1.2") = Ok tt
  /\ validate_for_conflicts [mk_db_record 1 "A" "www.example.com"]
       (mk_record_like None "A" "www.example.com" "192.168.1.2") = Ok tt.
Proof.
  split; [reflexivity|].
  apply (validate_for_conflicts_fewer_rows
           [mk_db_record 1 "A" "www.example.com";
            mk_db_record 2 "CNAME" "ftp.example.com"]).
  - intros r [<-|[]]. left. reflexivity.
  - reflexivity.
Defined.

(** X15: the check of a CNAME is the strictest: an object that passes
    [validate_for_conflicts] as a CNAME passes it with any other type. *)
Theorem validate_for_conflicts_cname_strictest objects self type_ :
  validate_for_conflicts objects (set_field self F_type "CNAME") = Ok tt ->
  validate_for_conflicts objects (set_field self F_type type_) = Ok tt.
Proof.
  rewrite !validate_for_conflicts_ok. intros H r Hin.
  specialize (H r Hin). unfold conflicts_with, own_row in *. simpl in *.
  destruct (rec_name r =? f_name self)%string; [|reflexivity].
  simpl in *. rewrite H. apply andb_false_r.
Qed.

Lemma validate_for_conflicts_cname_strictest_witness :
  validate_for_conflicts [mk_db_record 1 "A" "www.example.com"]
    (set_field (mk_record_like None "A" "ftp.example.com" "x") F_type "CNAME")
  = Ok tt
  /\ validate_for_conflicts [mk_db_record 1 "A" "www.example.com"]
       (set_field (mk_record_like None "A" "ftp.example.com" "x") F_type "MX")
     = Ok tt.
Proof.
  split; [reflexivity|].
  apply validate_for_conflicts_cname_strictest. reflexivity.
Defined.

Lemma conflicts_with_row self r :
  conflicts_with self r = false ->
  rec_name r = f_name self ->
  f_type self = "CNAME" \/ rec_type r = "CNAME" ->
  own_row self r = true.
Proof.
  unfold conflicts_with. intros H Hn Ht.
  rewrite (proj2 (String.eqb_eq _ _) Hn) in H.
  destruct Ht as [Ht|Ht]; rewrite (proj2 (String.eqb_eq _ _) Ht) in H;
    rewrite ?orb_true_r in H; simpl in H;
    destruct (own_row self r); [reflexivity | discriminate
                               | reflexivity | discriminate].
Qed.

(** X16: [validate_for_conflicts] keeps the table free of shared CNAME
    names. In a table where no CNAME record shares its name with another
    record, an object that passes the check can be stored, as a new row
    when it stands for no stored record and in place of its rows when it
    stands for one, and still no CNAME record shares its name. *)
Theorem validate_for_conflicts_keeps_cname_exclusive objects self :
  cname_exclusive objects ->
  validate_for_conflicts objects self = Ok tt ->
  (get_record_pk self = None ->
   forall pk, cname_exclusive (row_of pk self :: objects))
  /\ (forall pk, get_record_pk self = Some pk ->
        cname_exclusive
          (map (fun r => if (rec_id r =? pk)%N then row_of pk self else r)
               objects)).
Proof.
  intros Hex Hok. rewrite validate_for_conflicts_ok in Hok. split.
  - intros Hpk pk r1 r2 [<-|H1] [<-|H2] Hn Ht; auto.
    + pose proof (conflicts_with_row self r2 (Hok r2 H2) (eq_sym Hn)
                    (or_introl Ht)) as Hown.
      unfold own_row in Hown. rewrite Hpk in Hown. discriminate.
    + pose proof (conflicts_with_row self r1 (Hok r1 H1) Hn
                    (or_intror Ht)) as Hown.
      unfold own_row in Hown. rewrite Hpk in Hown. discriminate.
  - intros pk Hpk r1 r2 H1 H2 Hn Ht.
    apply in_map_iff in H1. destruct H1 as (x1 & E1 & H1).
    apply in_map_iff in H2. destruct H2 as (x2 & E2 & H2).
    destruct (rec_id x1 =? pk)%N eqn:I1; destruct (rec_id x2 =? pk)%N eqn:I2;
      subst r1 r2.
    + reflexivity.
    + pose proof (conflicts_with_row self x2 (Hok x2 H2) (eq_sym Hn)
                    (or_introl Ht)) as Hown.
      unfold own_row in Hown. rewrite Hpk, I2 in Hown. discriminate.
    + pose proof (conflicts_with_row self x1 (Hok x1 H1) Hn
                    (or_intror Ht)) as Hown.
      unfold own_row in Hown. rewrite Hpk, I1 in Hown. discriminate.
    + apply Hex; assumption.
Qed.

Lemma validate_for_conflicts_keeps_cname_exclusive_witness :
  cname_exclusive [mk_db_record 1 "A" "www.example.com"]
  /\ validate_for_conflicts [mk_db_record 1 "A" "www.example.com"]
       (mk_record_like None "CNAME" "ftp.example.com" "www.example.com")
     = Ok tt
  /\ cname_exclusive
       [mk_db_record 2 "CNAME" "ftp.example.com";
        mk_db_record 1 "A" "www.example.com"].
Proof.
  assert (Hex : cname_exclusive [mk_db_record 1 "A" "www.example.com"]).
  { intros r1 r2 [<-|[]] [<-|[]] _ _. reflexivity. }
  split; [exact Hex|]. split; [reflexivity|].
  apply (proj1 (validate_for_conflicts_keeps_cname_exclusive
                  [mk_db_record 1 "A" "www.example.com"]
                  (mk_record_like None "CNAME" "ftp.example.com"
                     "www.example.com") Hex eq_refl) eq_refl 2%N).
Defined.

(** ** The clean sequence *)

Lemma lower_char_idem c : lower_char (lower_char c) = lower_char c.
Proof. destruct c as [[] [] [] [] [] [] [] []]; reflexivity. Qed.

Lemma str_map_idem f s :
  (forall c, f (f c) = f c) -> str_map f (str_map f s) = str_map f s.
Proof. intros Hf. induction s as [|c s IH]; simpl; congruence. Qed.

Lemma truthy_str_map f s : truthy (str_map f s) = truthy s.
Proof. destruct s; reflexivity. Qed.

(** The capitals of one character are not empty and are their own
    capitals. *)
Lemma upper_char_idem c u :
  upper_char c = Some u -> upper u = Some u /\ u <> "".
Proof.
  intros H.
  destruct c as [[] [] [] [] [] [] [] []]; vm_compute in H;
    try discriminate H; injection H as <-;
    (split; [reflexivity | discriminate]).
Qed.

Lemma upper_app a b :
  upper (a +:+ b)
  = match upper a, upper b with
    | Some x, Some y => Some (x +:+ y)
    | _, _ => None
    end.
Proof.
  induction a as [|c a IH].
  - rewrite append_nil_l. cbn [upper]. destruct (upper b); reflexivity.
  - rewrite append_cons. cbn [upper]. rewrite IH.
    destruct (upper_char c), (upper a), (upper b); try reflexivity.
    rewrite append_assoc. reflexivity.
Qed.

Lemma upper_idem s t : upper s = Some t -> upper t = Some t.
Proof.
  revert t. induction s as [|c s IH]; intros t; cbn [upper].
  - intros H. injection H as <-. reflexivity.
  - destruct (upper_char c) as [u|] eqn:Eu; [|discriminate].
    destruct (upper s) as [r|] eqn:Er; [|discriminate].
    intros H. injection H as <-.
    rewrite upper_app, (proj1 (upper_char_idem _ _ Eu)), (IH r eq_refl).
    reflexivity.
Qed.

Lemma force_case_idem self self' :
  force_case self = Ok self' -> force_case self' = Ok self'.
Proof.
  intros H. destruct (force_case_fields _ _ H) as (Hn & Ht & _ & _).
  assert (Hl : lower (f_name self') = f_name self').
  { rewrite Hn. apply str_map_idem, lower_char_idem. }
  pose proof (upper_idem _ _ Ht) as Hu.
  destruct self' as [pk t n c]. unfold force_case. simpl in *.
  destruct (truthy n); simpl; rewrite ?Hl; destruct (truthy t); simpl;
    rewrite ?Hu; reflexivity.
Qed.

(** X17: what a successful [clean] leaves behind. The object it returns
    is in normal form ([force_case] changes it no more): its name is the
    name as given in small letters, its type the type as given in
    capitals; it has the content and the primary key it had before and
    passes the conflict check as it stands; the content check passed on
    the object as it was given. *)
Theorem clean_result v4 v6 objects self self' :
  clean v4 v6 objects self = Ok self' ->
  force_case self' = Ok self'
  /\ f_name self' = lower (f_name self)
  /\ upper (f_type self) = Some (f_type self')
  /\ f_content self' = f_content self
  /\ get_record_pk self' = get_record_pk self
  /\ validate_for_conflicts objects self' = Ok tt
  /\ clean_content_field v4 v6 self = Ok tt.
Proof.
  unfold clean. destruct (clean_content_field v4 v6 self) as [[]|];
    [|discriminate].
  simpl. destruct (force_case self) as [normal|] eqn:Ef; [|discriminate].
  simpl. destruct (validate_for_conflicts objects normal) as [[]|] eqn:E;
    [|discriminate].
  simpl. intros H. injection H as <-.
  destruct (force_case_fields _ _ Ef) as (Hn & Ht & Hc & Hpk).
  repeat split; eauto using force_case_idem.
Qed.

Lemma clean_result_witness :
  clean ipaddress_validate_ipv4 ipaddress_validate_ipv6
    [mk_db_record 1 "A" "www.example.com"]
    (mk_record_like None "cname" "FTP.example.com" "www.example.com")
  = Ok (mk_record_like None "CNAME" "ftp.example.com" "www.example.com")
  /\ force_case (mk_record_like None "CNAME" "ftp.example.com" "www.example.com")
     = Ok (mk_record_like None "CNAME" "ftp.example.com" "www.example.com").
Proof.
  split; [reflexivity|].
  apply (clean_result ipaddress_validate_ipv4 ipaddress_validate_ipv6
           [mk_db_record 1 "A" "www.example.com"]
           (mk_record_like None "cname" "FTP.example.com" "www.example.com")).
  reflexivity.
Defined.

(** ** Whitespace in an SOA record *)

Lemma split_ws_leading ws s :
  str_all is_space ws = true -> split_ws (ws +:+ s) = split_ws s.
Proof.
  induction ws as [|c ws IH]; [reflexivity|]. str_simpl.
  intros H. apply andb_prop in H. destruct H as [Hc Hws].
  rewrite Hc. auto.
Qed.

Lemma starts_with_space_app s ws :
  str_all is_space ws = true ->
  starts_with_space (s +:+ ws) = starts_with_space s.
Proof.
  destruct s; [|reflexivity]. str_simpl.
  destruct ws; [reflexivity|]. simpl. intros H.
  apply andb_prop in H. apply H.
Qed.

Lemma split_ws_trailing s ws :
  str_all is_space ws = true -> split_ws (s +:+ ws) = split_ws s.
Proof.
  intros Hws. induction s as [|c s IH].
  - rewrite append_nil_l. rewrite <- (append_nil_r ws).
    rewrite (split_ws_leading _ _ Hws). reflexivity.
  - rewrite append_cons. cbn [split_ws].
    rewrite (starts_with_space_app _ _ Hws), IH. reflexivity.
Qed.

Lemma split_ws_space x c y :
  is_space c = true ->
  split_ws (x +:+ String c y) = split_ws x ++ split_ws y.
Proof.
  intros Hc. induction x as [|d x IH].
  - rewrite append_nil_l. simpl. rewrite Hc. reflexivity.
  - rewrite append_cons. cbn [split_ws]. rewrite IH.
    destruct (is_space d); [reflexivity|].
    replace (starts_with_space (x +:+ String c y)) with (starts_with_space x).
    + destruct (starts_with_space x) eqn:Sx; [reflexivity|].
      destruct (split_ws x) as [|w ws] eqn:Ex; [|reflexivity].
      destruct x as [|e x]; [discriminate|]. simpl in Sx.
      cbn [split_ws] in Ex. rewrite Sx in Ex.
      destruct (starts_with_space x); [discriminate|].
      destruct (split_ws x); discriminate.
    + destruct x; [simpl; rewrite Hc|]; reflexivity.
Qed.

(** X18: [validate_soa] reads the fields only: whitespace before the
    first field and after the last one is ignored, and any run of
    whitespace between two fields counts as one space. *)
Theorem validate_soa_whitespace :
  (forall before value after,
     str_all is_space before = true -> str_all is_space after = true ->
     validate_soa (before +:+ value +:+ after) = validate_soa value)
  /\ (forall x ws y,
        str_all is_space ws = true -> ws <> "" ->
        validate_soa (x +:+ ws +:+ y) = validate_soa (x +:+ " " +:+ y)).
Proof.
  split.
  - intros before value after Hb Ha. unfold validate_soa.
    rewrite (split_ws_leading _ _ Hb), (split_ws_trailing _ _ Ha).
    reflexivity.
  - intros x ws y Hws Hne. unfold validate_soa.
    destruct ws as [|c ws]; [congruence|]. simpl in Hws.
    apply andb_prop in Hws. destruct Hws as [Hc Hws].
    rewrite !append_cons, append_nil_l.
    rewrite (split_ws_space x c _ Hc), (split_ws_leading _ _ Hws).
    rewrite (split_ws_space x " " y eq_refl). reflexivity.
Qed.

(** ** The names [validate_domain_name] accepts *)

(** X19: [validate_domain_name] accepts the names of the grammar (an
    optional leading [*.], labels over letters, digits, [_] and [-] each
    followed by a dot, and a last label of letters and digits) and each
    of them followed by one newline, and nothing else. *)
Theorem validate_domain_name_accepted s :
  validate_domain_name s = Ok tt <->
  domain_name_grammar s
  \/ exists t, s = t +:+ String nl "" /\ domain_name_grammar t.
Proof.
  unfold validate_domain_name.
  rewrite RegexValidator_ok, search_anchored_spec, lang_domain_name.
  split; intros [H|(t & E & H)]; auto; right; exists t;
    split; auto; apply lang_domain_name; auto.
Qed.

(** ** Types that are not written in capitals *)

(** X20: [clean] checks the content against the type as it was given,
    and only then writes the type in capitals. An object whose type is
    not in capitals already has its content checked by no validator:
    [clean] normalises the case and does the conflict check, and nothing
    else, whatever the content is. *)
Theorem clean_type_not_in_capitals v4 v6 objects self :
  upper (f_type self) <> Some (f_type self) ->
  clean_content_field v4 v6 self = Ok tt
  /\ clean v4 v6 objects self
     = (normal ← force_case self;
        validate_for_conflicts objects normal;;
        Ok normal).
Proof.
  intros Hup.
  assert (Hc : clean_content_field v4 v6 self = Ok tt).
  { unfold clean_content_field, str_in, DOMAIN_NAME_RECORDS. simpl.
    repeat match goal with
    | |- context [String.eqb (f_type self) ?t] =>
        destruct (String.eqb_spec (f_type self) t) as [E|_];
        [exfalso; apply Hup; rewrite E; reflexivity | simpl]
    end.
    reflexivity. }
  split; [exact Hc|]. unfold clean. rewrite Hc. reflexivity.
Qed.

Lemma clean_type_not_in_capitals_witness :
  upper "cname" = Some "CNAME"
  /\ clean_content_field ipaddress_validate_ipv4 ipaddress_validate_ipv6
       (mk_record_like None "cname" "x" "not a name!") = Ok tt
  /\ clean ipaddress_validate_ipv4 ipaddress_validate_ipv6 []
       (mk_record_like None "cname" "x" "not a name!")
     = (normal ← force_case (mk_record_like None "cname" "x" "not a name!");
        validate_for_conflicts [] normal;;
        Ok normal).
Proof.
  split; [reflexivity|].
  apply (clean_type_not_in_capitals ipaddress_validate_ipv4
           ipaddress_validate_ipv6 []
           (mk_record_like None "cname" "x" "not a name!")).
  discriminate.
Defined.
